(** * video-keyframe-api: a shallow embedding of [server.js]

    The development follows the source file top to bottom:

    - [Text]    : the string functions the handlers rely on ([parseInt],
                  [String.prototype.startsWith], [match(/\d+/)], [split]);
    - [Path]    : POSIX [path.join] on an absolute, normalised [__dirname];
    - [Disk]    : the part of the file system the server touches
                  ([existsSync], [mkdir -p], [rm -rf], [unlink], [readdir]);
    - [Frames]  : the ['end'] callback of [extractKeyframes] (filter, numeric
                  sort, join);
    - [Server]  : [downloadVideo], [extractKeyframes], [cleanup], the upload
                  middleware and the three route handlers, in state-passing
                  style over the disk, with the outside world (uuid generator,
                  HTTP download, ffmpeg, directory listing order) as an
                  explicit environment record.

    A handler returns the state it leaves behind: the disk, the trace of
    what it did in order, and the reply with the disk as it was when the
    reply went out. A handler whose promise never settles leaves a state
    without reply.

    Numbers are exact integers ([Z]); JavaScript doubles agree with them below
    2^53, far above every frame index ffmpeg can print and every interval
    that passes the range check. Strings hold the UTF-8 bytes of the
    JavaScript string. Route parameters reach the handlers percent-decoded,
    so they may hold any character, separators included. *)

From Stdlib Require Import ZArith Lia Ascii Permutation Sorted.
From stdpp Require Import gmap strings list fin_maps sorting pretty.

Local Open Scope Z_scope.

(* ===================================================================== *)
(** ** Strings *)
(* ===================================================================== *)

Module Text.

Definition slash : ascii := "/"%char.

(** [s.split(sep)] for a one-character separator. *)
Fixpoint split_on (sep : ascii) (s : string) : list string :=
  match s with
  | EmptyString => [""]
  | String c r =>
      if Ascii.eqb c sep then "" :: split_on sep r
      else match split_on sep r with
           | [] => [String c ""]
           | w :: ws => String c w :: ws
           end
  end.

Fixpoint contains_char (c : ascii) (s : string) : bool :=
  match s with
  | EmptyString => false
  | String d r => Ascii.eqb d c || contains_char c r
  end.

Fixpoint ends_with_char (c : ascii) (s : string) : bool :=
  match s with
  | EmptyString => false
  | String d EmptyString => Ascii.eqb d c
  | String _ r => ends_with_char c r
  end.

(** [s.startsWith(p)] *)
Definition startsWith (p s : string) : bool := String.prefix p s.

(** Truthiness of a string value: only the empty string is falsy. *)
Definition truthy (s : string) : bool := negb (String.eqb s "").

Definition is_digit (c : ascii) : bool :=
  let n := nat_of_ascii c in (48 <=? n)%nat && (n <=? 57)%nat.

Definition digit_val (c : ascii) : Z := Z.of_nat (nat_of_ascii c) - 48.

(** Value of a hexadecimal digit, if [c] is one. *)
Definition hex_val (c : ascii) : option Z :=
  let n := nat_of_ascii c in
  if is_digit c then Some (Z.of_nat n - 48)
  else if (97 <=? n)%nat && (n <=? 102)%nat then Some (Z.of_nat n - 87)
  else if (65 <=? n)%nat && (n <=? 70)%nat then Some (Z.of_nat n - 55)
  else None.

Definition dec_val (c : ascii) : option Z :=
  if is_digit c then Some (digit_val c) else None.

(** White space skipped by [parseInt] (StrWhiteSpaceChar: WhiteSpace and
    LineTerminator). In UTF-8 the code points up to U+007F take one byte:
    tab, line feed, vertical tab, form feed, carriage return and space. *)
Definition is_space (c : ascii) : bool :=
  let n := nat_of_ascii c in
  ((9 <=? n)%nat && (n <=? 13)%nat) || (n =? 32)%nat.

(** U+00A0, the no-break space, is the only one of two bytes: [C2 A0]. *)
Definition is_space2 (c d : ascii) : bool :=
  (nat_of_ascii c =? 194)%nat && (nat_of_ascii d =? 160)%nat.

(** The others take three bytes: U+1680 is [E1 9A 80]; U+2000 to U+200A,
    U+2028, U+2029 and U+202F are [E2 80 80] to [E2 80 8A], [E2 80 A8],
    [E2 80 A9] and [E2 80 AF]; U+205F is [E2 81 9F]; U+3000 is [E3 80 80];
    U+FEFF, the byte order mark, is [EF BB BF]. *)
Definition is_space3 (c d e : ascii) : bool :=
  let '(x, y, z) := (nat_of_ascii c, nat_of_ascii d, nat_of_ascii e) in
  ((x =? 225) && (y =? 154) && (z =? 128))%nat
  || ((x =? 226) && (y =? 128)
      && (((128 <=? z) && (z <=? 138)) || (z =? 168) || (z =? 169)
          || (z =? 175)))%nat
  || ((x =? 226) && (y =? 129) && (z =? 159))%nat
  || ((x =? 227) && (y =? 128) && (z =? 128))%nat
  || ((x =? 239) && (y =? 187) && (z =? 191))%nat.

Fixpoint skip_spaces (s : string) : string :=
  match s with
  | String c r =>
      if is_space c then skip_spaces r
      else match r with
           | String d r1 =>
               if is_space2 c d then skip_spaces r1
               else match r1 with
                    | String e r2 =>
                        if is_space3 c d e then skip_spaces r2 else s
                    | EmptyString => s
                    end
           | EmptyString => s
           end
  | EmptyString => s
  end.

(** Longest prefix of radix digits, accumulated left to right; [None] when
    the prefix is empty. [seen] records whether a digit has been read. *)
Fixpoint read_digits (val : ascii -> option Z) (radix : Z)
    (seen : bool) (acc : Z) (s : string) : option Z :=
  match s with
  | EmptyString => if seen then Some acc else None
  | String c r =>
      match val c with
      | Some d => read_digits val radix true (acc * radix + d) r
      | None => if seen then Some acc else None
      end
  end.

(** The optional sign of [parseInt]'s input. *)
Definition read_sign (s : string) : Z * string :=
  match s with
  | String c r =>
      if Ascii.eqb c "-" then (-1, r)
      else if Ascii.eqb c "+" then (1, r)
      else (1, s)
  | EmptyString => (1, s)
  end.

(** The radix when none is given: 16 after a [0x] or [0X] prefix, else 10. *)
Definition read_radix (s : string) : (ascii -> option Z) * Z * string :=
  match s with
  | String c (String x r) =>
      if Ascii.eqb c "0" && (Ascii.eqb x "x" || Ascii.eqb x "X")
      then (hex_val, 16, r) else (dec_val, 10, s)
  | _ => (dec_val, 10, s)
  end.

(** [parseInt(s)] with no radix argument; [None] is [NaN]. *)
Definition parseInt (s : string) : option Z :=
  let '(sign, s2) := read_sign (skip_spaces s) in
  let '(val, radix, s3) := read_radix s2 in
  match read_digits val radix false 0 s3 with
  | Some n => Some (sign * n)
  | None => None
  end.

Fixpoint all_digits (s : string) : bool :=
  match s with
  | EmptyString => true
  | String c r => is_digit c && all_digits r
  end.

(** [s.match(/\d+/)]: the first maximal run of decimal digits, [None] when
    the string has no digit ([match] returns [null]). *)
Fixpoint take_digits (s : string) : string :=
  match s with
  | String c r => if is_digit c then String c (take_digits r) else ""
  | EmptyString => ""
  end.

Fixpoint match_digits (s : string) : option string :=
  match s with
  | EmptyString => None
  | String c r => if is_digit c then Some (take_digits s) else match_digits r
  end.

End Text.

(* ===================================================================== *)
(** ** Paths *)
(* ===================================================================== *)

Module Path.

(** An absolute normalised path is the list of its segments, root first:
    [/usr/src/app] is [["usr"; "src"; "app"]]. *)
Abbreviation path := (list string).

(** The string a [path.join] returns: its segments and whether it keeps a
    trailing separator. *)
Record fpath := FPath { segs : path; dirslash : bool }.

Definition plainp (p : path) : fpath := FPath p false.

(** One segment of [normalizeString] on an absolute path: empty and ["."]
    segments vanish, [".."] drops the last kept segment (and is ignored at
    the root), anything else is kept. *)
Definition norm_step (acc : path) (seg : string) : path :=
  if String.eqb seg "" then acc
  else if String.eqb seg "." then acc
  else if String.eqb seg ".." then removelast acc
  else acc ++ [seg].

Definition nonempty_args (args : list string) : list string :=
  List.filter Text.truthy args.

(** [path.join(base, ...args)] where [base] is absolute and normalised
    (here always [__dirname], or a path built from it). Empty arguments are
    skipped, the rest is glued with ["/"] and normalised. *)
Definition join_segs (base : path) (args : list string) : path :=
  fold_left norm_step
    (flat_map (Text.split_on Text.slash) (nonempty_args args)) base.

Definition join_slash (args : list string) : bool :=
  match last (nonempty_args args) with
  | Some a => Text.ends_with_char Text.slash a
  | None => false
  end.

Definition join (base : path) (args : list string) : fpath :=
  FPath (join_segs base args) (join_slash args).

(** [path.basename] of a normalised path. *)
Definition basename (p : path) : string := default "" (last p).

(** A segment that [path.join] appends unchanged: not empty, not ["."], not
    [".."], and without separator. *)
Definition plain_seg (s : string) : bool :=
  negb (String.eqb s "") && negb (String.eqb s ".")
  && negb (String.eqb s "..") && negb (Text.contains_char Text.slash s).

End Path.

(* ===================================================================== *)
(** ** The disk *)
(* ===================================================================== *)

Module Disk.
Import Path.

(** What lives at a path: a regular file with its bytes, or a directory. *)
Inductive node :=
  | File (data : string)
  | Dir.

(** The file system is a finite map from normalised absolute paths to
    nodes; the root is a directory and is not stored. Maps are meant to be
    trees (every stored path has its parent directories stored too); the
    operations below keep that shape, and they resolve a path segment by
    segment, so that what is stored below a missing directory or below a
    regular file cannot be reached. Permissions, links and quotas are left
    out, so the only failures are those a path itself can cause. *)
Abbreviation fs := (gmap (list string) node).

Inductive stat :=
  | ENOENT
  | ENOTDIR
  | IsFile (data : string)
  | IsDir.

Definition node_at (m : fs) (p : path) : option node :=
  match p with
  | [] => Some Dir
  | _ => m !! p
  end.

(** Resolving [rest] from the directory [pre]: a missing segment is
    [ENOENT], a regular file with segments still to go is [ENOTDIR]. *)
Fixpoint resolve (m : fs) (pre : path) (rest : list string) : stat :=
  match rest with
  | [] => IsDir
  | s :: rest' =>
      match m !! (pre ++ [s]) with
      | None => ENOENT
      | Some Dir => resolve m (pre ++ [s]) rest'
      | Some (File d) => match rest' with [] => IsFile d | _ => ENOTDIR end
      end
  end.

(** [lstat]: a trailing separator asks for a directory. *)
Definition lstat (m : fs) (p : fpath) : stat :=
  match resolve m [] (segs p) with
  | IsFile d => if dirslash p then ENOTDIR else IsFile d
  | r => r
  end.

(** [fsSync.existsSync] *)
Definition existsSync (m : fs) (p : fpath) : bool :=
  match lstat m p with
  | IsFile _ | IsDir => true
  | ENOENT | ENOTDIR => false
  end.

(** System errors are carried as their code; it stands for [err.message]. *)
Definition error := string.

(** [fs.mkdir(p, { recursive: true })]: walks down from the root, creating
    what is missing; a regular file on the way is an error. *)
Fixpoint mkdir_from (m : fs) (pre : path) (rest : list string) : error + fs :=
  match rest with
  | [] => inr m
  | s :: rest' =>
      let q := pre ++ [s] in
      match m !! q with
      | Some (File _) => inl (match rest' with [] => "EEXIST" | _ => "ENOTDIR" end)
      | Some Dir => mkdir_from m q rest'
      | None => mkdir_from (<[q := Dir]> m) q rest'
      end
  end.

Definition mkdir_p (m : fs) (p : fpath) : error + fs :=
  mkdir_from m [] (segs p).

(** [fs.rm(p, { recursive: true, force: true })]: a missing path is not an
    error; a directory goes with everything below it. *)
Definition rm_rf (m : fs) (p : fpath) : error + fs :=
  match lstat m p with
  | ENOENT => inr m
  | ENOTDIR => inl "ENOTDIR"
  | IsFile _ => inr (delete (segs p) m)
  | IsDir => inr (filter (λ kv, ¬ segs p `prefix_of` kv.1) m)
  end.

(** [fs.unlink(p)] *)
Definition unlink (m : fs) (p : fpath) : error + fs :=
  match lstat m p with
  | ENOENT => inl "ENOENT"
  | ENOTDIR => inl "ENOTDIR"
  | IsDir => inl "EISDIR"
  | IsFile _ => inr (delete (segs p) m)
  end.

(** Opening [p] for writing ([fsSync.createWriteStream], flag ['w']): the
    parent must be a directory and [p] must not be one; the file is created
    or truncated. *)
Definition open_w (m : fs) (p : path) : error + fs :=
  match resolve m [] (removelast p) with
  | ENOENT => inl "ENOENT"
  | ENOTDIR | IsFile _ => inl "ENOTDIR"
  | IsDir =>
      match node_at m p with
      | Some Dir => inl "EISDIR"
      | _ => inr (<[p := File ""]> m)
      end
  end.

(** The name [k] has inside the directory [p], if [k] is a direct child. *)
Fixpoint child_of (p k : path) : option string :=
  match p, k with
  | [], [s] => Some s
  | a :: p', b :: k' => if decide (a = b) then child_of p' k' else None
  | _, _ => None
  end.

(** The entries of directory [p], in the map's own order; [fs.readdir]
    returns them in an order the platform chooses (see [Server.readdir]). *)
Definition entries (m : fs) (p : path) : list string :=
  omap (child_of p) (map_to_list m).*1.

End Disk.

(* ===================================================================== *)
(** ** Collecting the frames: the ['end'] callback of [extractKeyframes] *)
(* ===================================================================== *)

Module Frames.
Import Path.

(** [parseInt(f.match(/\d+/)[0])] once [match] has found a digit run;
    [None] is [NaN]. The number is exact; the double JavaScript computes is
    the same below 2^53, and ffmpeg's [%d] prints a C [int]. *)
Definition numOf (f : string) : option Z :=
  Text.parseInt (default "" (Text.match_digits f)).

(** [f.match(/\d+/)] is [null], so that indexing it with [[0]] throws. *)
Definition throws (f : string) : bool :=
  match Text.match_digits f with Some _ => false | None => true end.

(** The comparator [(a, b) => numA - numB]; a [NaN] difference counts as
    [+0] for [sort]. *)
Definition compareFrames (a b : string) : Z :=
  match numOf a, numOf b with
  | Some x, Some y => x - y
  | _, _ => 0
  end.

(** The numeric index embedded in a frame's file name. *)
Definition indexOf (f : string) : Z := default 0 (numOf f).

(** [Array.prototype.sort] is a stable sort; for a comparator that is a
    total preorder its result is the one stable arrangement, computed here
    by insertion from the right. *)
Fixpoint insert_by (cmp : string -> string -> Z) (x : string) (l : list string) : list string :=
  match l with
  | [] => [x]
  | y :: l' => if cmp x y <=? 0 then x :: y :: l' else y :: insert_by cmp x l'
  end.

Definition sort_by (cmp : string -> string -> Z) (l : list string) : list string :=
  foldr (insert_by cmp) [] l.

(** [.sort((a, b) => ...)] on the filtered names. With fewer than two
    elements the comparator never runs; otherwise every element is compared
    at least once, and a name without a digit throws. *)
Definition sortFrames (l : list string) : option (list string) :=
  match l with
  | [] | [_] => Some l
  | _ => if forallb (λ f, negb (throws f)) l
         then Some (sort_by compareFrames l) else None
  end.

Definition isFrame (f : string) : bool := Text.startsWith "frame_" f.

(** [files.filter(...).sort(...).map((f) => path.join(outputDir, f))];
    [None] when the comparator throws. *)
Definition collectFrames (outputDir : path) (files : list string) : option (list fpath) :=
  match sortFrames (List.filter isFrame files) with
  | Some sorted => Some (map (λ f, join outputDir [f]) sorted)
  | None => None
  end.

End Frames.

(* ===================================================================== *)
(** ** The server *)
(* ===================================================================== *)

Module Server.
Import Path Disk.

(** *** Replies *)

Inductive json :=
  | JError (error : string) (details : option string)
  | JExtracted (videoId : string) (interval : Z) (frameCount : nat)
      (keyFrames : list string)
  | JDeleted.

Inductive reply :=
  | Json (status : nat) (body : json)
  | SendFile (p : fpath).

(** *** The outside world *)

(** What the HTTP GET of [downloadVideo] does: the request itself fails
    (transport error, timeout, status outside 2xx), the body arrives and is
    flushed, the write stream fails midway, or the response stream breaks
    and nothing settles. *)
Inductive download_outcome :=
  | DlFailed (msg : string)
  | DlDone (data : string)
  | DlWriteError (msg partial : string)
  | DlStalled (partial : string).

(** What ffmpeg does: the frames it wrote (index and bytes), and whether it
    ended, reported an error, or did neither: [extractKeyframes] sets no
    timeout, so an engine that hangs is waited for without end. *)
Inductive engine_outcome :=
  | EngineEnd (frames : list (nat * string))
  | EngineError (msg : string) (frames : list (nat * string))
  | EngineHangs (frames : list (nat * string)).

Record world := World {
  dirname : path;                       (* __dirname *)
  baseUrl : string;                     (* BASE_URL, or protocol://host *)
  uuid_upload : string;                 (* uuidv4() in multer's filename *)
  uuid_download : string;               (* uuidv4() in downloadVideo *)
  uuid_job : string;                    (* uuidv4() for videoId *)
  axios_get : string -> download_outcome;
  ffmpeg : fs -> fpath -> Z -> engine_outcome;
  readdir_order : list string -> list string
}.

(** *** State *)

Inductive event :=
  | EvMkdir (p : fpath)
  | EvRm (p : fpath)
  | EvUnlink (p : fpath)
  | EvOpen (p : path)
  | EvStore (p : path)
  | EvFrame (p : path)
  | EvSend (r : reply).

(** The disk, what was done so far (oldest first), and the reply once it has
    been sent, with the disk as it was at that moment. *)
Record state := State {
  disk : fs;
  trace : list event;
  sent : option (reply * fs)
}.

Definition start (m : fs) : state := State m [] None.

Definition set_disk (m : fs) (e : event) (st : state) : state :=
  State m (trace st ++ [e]) (sent st).

Definition note (e : event) (st : state) : state := set_disk (disk st) e st.

(** [res.status(..).json(..)], [res.json(..)], [res.sendFile(..)] *)
Definition send (r : reply) (st : state) : state :=
  State (disk st) (trace st ++ [EvSend r]) (Some (r, disk st)).

(** A promise: resolved, rejected with [err.message], or never settled. *)
Inductive promise (A : Type) :=
  | Resolved (a : A)
  | Rejected (msg : string)
  | Pending.
Arguments Resolved {A} a.
Arguments Rejected {A} msg.
Arguments Pending {A}.

Section Handlers.
Variable w : world.

Definition tempDir : fpath := join (dirname w) ["temp"].

(** [if (!fsSync.existsSync(tempDir)) await fs.mkdir(tempDir, ...)] *)
Definition ensure_temp (st : state) : error + state :=
  if existsSync (disk st) tempDir then inr st
  else match mkdir_p (disk st) tempDir with
       | inr m => inr (set_disk m (EvMkdir tempDir) st)
       | inl e => inl e
       end.

(** *** [downloadVideo] *)

(** The write stream is opened before the request is made, so the file is
    there whatever the request does. When the open fails, the stream's
    ['error'] event finds no listener yet and nothing is ever answered. *)
Definition downloadVideo (url : string) (st : state) : state * promise fpath :=
  match ensure_temp st with
  | inl e => (st, Rejected e)
  | inr st1 =>
      let videoPath := join (segs tempDir) [uuid_download w +:+ ".mp4"] in
      match open_w (disk st1) (segs videoPath) with
      | inl _ => (note (EvOpen (segs videoPath)) st1, Pending)
      | inr m =>
          let st2 := set_disk m (EvOpen (segs videoPath)) st1 in
          let store d := set_disk (<[segs videoPath := File d]> m)
                           (EvStore (segs videoPath)) st2 in
          match axios_get w url with
          | DlFailed msg => (st2, Rejected msg)
          | DlDone data => (store data, Resolved videoPath)
          | DlWriteError msg partial => (store partial, Rejected msg)
          | DlStalled partial => (store partial, Pending)
          end
      end
  end.

(** *** [extractKeyframes] *)

(** The name ffmpeg gives frame [n] under the pattern [frame_%d.jpg]. *)
Definition frame_name (n : nat) : string := "frame_" +:+ pretty n +:+ ".jpg".

Definition write_frame (outputDir : path) (st : state) (f : nat * string) : state :=
  let p := outputDir ++ [frame_name f.1] in
  set_disk (<[p := File f.2]> (disk st)) (EvFrame p) st.

Definition write_frames (outputDir : path) (frames : list (nat * string))
    (st : state) : state :=
  foldl (write_frame outputDir) st frames.

(** [fs.readdir(outputDir)]: the entries of a directory, in an order the
    platform chooses; an error when the path is no directory. *)
Definition readdir (m : fs) (p : fpath) : error + list string :=
  match lstat m p with
  | IsDir => inr (readdir_order w (entries m (segs p)))
  | ENOENT => inl "ENOENT"
  | ENOTDIR | IsFile _ => inl "ENOTDIR"
  end.

(** The ['end'] callback is an [async] function whose rejection nobody
    handles: when [readdir] fails or the comparator throws, the promise of
    [extractKeyframes] is never settled. *)
Definition extractKeyframes (videoPath : fpath) (interval : Z)
    (outputDir : fpath) (st : state) : state * promise (list fpath) :=
  match ffmpeg w (disk st) videoPath interval with
  | EngineError msg frames =>
      (write_frames (segs outputDir) frames st,
       Rejected ("FFmpeg error: " +:+ msg))
  | EngineEnd frames =>
      let st1 := write_frames (segs outputDir) frames st in
      match readdir (disk st1) outputDir with
      | inl _ => (st1, Pending)
      | inr files =>
          match Frames.collectFrames (segs outputDir) files with
          | Some framePaths => (st1, Resolved framePaths)
          | None => (st1, Pending)
          end
      end
  | EngineHangs frames => (write_frames (segs outputDir) frames st, Pending)
  end.

(** *** [cleanup] *)
Definition cleanup (filePath : fpath) (st : state) : state :=
  match unlink (disk st) filePath with
  | inr m => set_disk m (EvUnlink filePath) st
  | inl _ => note (EvUnlink filePath) st
  end.

(** *** POST /extract-keyframes *)

(** [req.body.interval] as [parseInt] reads it. [parseInt] first turns its
    argument into a string. The body comes from [express.json()] or from
    multer, so the field may be missing, a string, or any other value: a
    number, a boolean, [null], an array or an object. Such a value stands
    here as the string [String(v)] gives, which is all [parseInt] sees of
    it; when that conversion fails, as for the JSON body
    [{"interval": {"toString": 1}}] or for the multipart field [interval[a]]
    (an object without prototype), [parseInt] throws a [TypeError] with the
    message carried here; so does line 134 when [req.body] itself is
    undefined. *)
Inductive field :=
  | Absent
  | Str (s : string)
  | Unreadable (msg : string).

(** The request as the handler sees it: the two body fields and the path
    of the file multer stored. [videoUrl] is only tested for truth and
    handed to axios: a value that is not a string stands as absent when it
    is falsy and as a non-empty string otherwise. *)
Record request := Request {
  interval_field : field;
  videoUrl_field : option string;
  file_path : option path
}.

(** [parseInt(req.body.interval) || 5]: [NaN] and [0] are falsy; [inl] when
    [parseInt] throws. *)
Definition parse_interval (f : field) : error + Z :=
  match f with
  | Absent => inr 5
  | Str s => inr (match Text.parseInt s with
                  | None | Some 0 => 5
                  | Some n => n
                  end)
  | Unreadable msg => inl msg
  end.

(** How the [try] block was left. *)
Inductive exit :=
  | Returned
  | Threw (msg : string)
  | Stuck.

(** The two [let] variables of the handler and the way the [try] block
    ended. *)
Record attempt := Attempt {
  after : state;
  videoPath : option fpath;
  outputDir : option fpath;
  how : exit
}.

Definition frameUrl (videoId : string) (framePath : fpath) : string :=
  baseUrl w +:+ "/frames/" +:+ videoId +:+ "/" +:+ basename (segs framePath).

(** Lines 162 to 187: from the output directory to the success reply. *)
Definition extract_into (interval : Z) (vp : fpath) (st : state) : attempt :=
  let videoId := uuid_job w in
  let od := join (dirname w) ["uploads"; videoId] in
  match mkdir_p (disk st) od with
  | inl e => Attempt (note (EvMkdir od) st) (Some vp) (Some od) (Threw e)
  | inr m =>
      let st1 := set_disk m (EvMkdir od) st in
      match extractKeyframes vp interval od st1 with
      | (st2, Resolved keyFramePaths) =>
          let frameUrls := map (frameUrl videoId) keyFramePaths in
          Attempt
            (send (Json 200 (JExtracted videoId interval (length frameUrls) frameUrls)) st2)
            (Some vp) (Some od) Returned
      | (st2, Rejected msg) => Attempt st2 (Some vp) (Some od) (Threw msg)
      | (st2, Pending) => Attempt st2 (Some vp) (Some od) Stuck
      end
  end.

(** [if (req.body.videoUrl)]: the field is there and not the empty string. *)
Definition url_given (req : request) : option string :=
  match videoUrl_field req with
  | Some url => if Text.truthy url then Some url else None
  | None => None
  end.

(** Lines 143 to 160: where the video comes from. *)
Inductive source :=
  | Staged (vp : fpath)
  | DownloadFailed (msg : string)
  | DownloadPending
  | NoSource.

Definition acquire (req : request) (st : state) : state * source :=
  match url_given req with
  | Some url =>
      match downloadVideo url st with
      | (st1, Resolved vp) => (st1, Staged vp)
      | (st1, Rejected msg) => (st1, DownloadFailed msg)
      | (st1, Pending) => (st1, DownloadPending)
      end
  | None =>
      match file_path req with
      | Some f => (st, Staged (plainp f))
      | None => (st, NoSource)
      end
  end.

(** Lines 136 to 187: the [try] block once [interval] is known. *)
Definition try_with (interval : Z) (req : request) (st : state) : attempt :=
  if (interval <? 1) || (interval >? 60) then
    Attempt
      (send (Json 400 (JError "Interval must be between 1 and 60 seconds" None)) st)
      None None Returned
  else
    match acquire req st with
    | (st1, Staged vp) => extract_into interval vp st1
    | (st1, DownloadFailed msg) =>
        Attempt
          (send (Json 400 (JError "Failed to download video from URL" (Some msg))) st1)
          None None Returned
    | (st1, DownloadPending) => Attempt st1 None None Stuck
    | (st1, NoSource) =>
        Attempt
          (send (Json 400 (JError "Either videoUrl or video file must be provided" None)) st1)
          None None Returned
    end.

(** The [try] block: line 134 may throw before anything else is done. *)
Definition try_block (req : request) (st : state) : attempt :=
  match parse_interval (interval_field req) with
  | inl msg => Attempt st None None (Threw msg)
  | inr interval => try_with interval req st
  end.

(** The [catch] block. *)
Definition catch_block (msg : string) (od : option fpath) (st : state) : state :=
  let st1 :=
    match od with
    | Some d =>
        match rm_rf (disk st) d with
        | inr m => set_disk m (EvRm d) st
        | inl _ => note (EvRm d) st
        end
    | None => st
    end in
  send (Json 500 (JError "Failed to extract keyframes" (Some msg))) st1.

(** The [finally] block. *)
Definition finally_block (vp : option fpath) (st : state) : state :=
  match vp with
  | Some p => cleanup p st
  | None => st
  end.

(** What follows the [try] block: [catch] when it threw, then [finally];
    neither when it is still waiting for a promise. *)
Definition settle (a : attempt) : state :=
  match how a with
  | Returned => finally_block (videoPath a) (after a)
  | Threw msg => finally_block (videoPath a) (catch_block msg (outputDir a) (after a))
  | Stuck => after a
  end.

Definition postExtractKeyframes (req : request) (st : state) : state :=
  settle (try_block req st).

(** *** The upload middleware, [upload.single("video")] *)

Record upload := Upload {
  extname : string;      (* path.extname(file.originalname) *)
  mimetype : string;
  content : string
}.

Definition allowedMimes : list string :=
  ["video/mp4"; "video/mpeg"; "video/quicktime"; "video/x-msvideo"; "video/webm"].

Record raw_request := RawRequest {
  raw_interval : field;
  raw_videoUrl : option string;
  raw_video : option upload
}.

(** Stores the uploaded file under [temp/] and hands the request on; a file
    of another type goes to the error-handling middleware instead. [None]
    when the handler does not run. *)
Definition uploadSingle (raw : raw_request) (st : state) : state * option request :=
  match raw_video raw with
  | None => (st, Some (Request (raw_interval raw) (raw_videoUrl raw) None))
  | Some u =>
      if bool_decide (mimetype u ∈ allowedMimes) then
        match ensure_temp st with
        | inl _ => (st, None)
        | inr st1 =>
            let p := segs (join (segs tempDir) [uuid_upload w +:+ extname u]) in
            match open_w (disk st1) p with
            | inl e =>
                (send (Json 500 (JError "Internal server error" (Some e)))
                   (note (EvOpen p) st1), None)
            | inr m =>
                let st2 := set_disk m (EvOpen p) st1 in
                (set_disk (<[p := File (content u)]> m) (EvStore p) st2,
                 Some (Request (raw_interval raw) (raw_videoUrl raw) (Some p)))
            end
        end
      else
        (send (Json 500 (JError "Internal server error"
                 (Some "Invalid file type. Only video files are allowed."))) st,
         None)
  end.

(** The whole route: middleware, then handler. *)
Definition post_route (raw : raw_request) (st : state) : state :=
  match uploadSingle raw st with
  | (st1, Some req) => postExtractKeyframes req st1
  | (st1, None) => st1
  end.

(** *** GET /frames/:videoId/:frameName *)
Definition getFrame (videoId frameName : string) (st : state) : state :=
  let framePath := join (dirname w) ["uploads"; videoId; frameName] in
  if negb (existsSync (disk st) framePath) then
    send (Json 404 (JError "Frame not found" None)) st
  else send (SendFile framePath) st.

(** *** DELETE /frames/:videoId *)
Definition deleteFrames (videoId : string) (st : state) : state :=
  let videoDir := join (dirname w) ["uploads"; videoId] in
  match rm_rf (disk st) videoDir with
  | inr m => send (Json 200 JDeleted) (set_disk m (EvRm videoDir) st)
  | inl e =>
      send (Json 500 (JError "Failed to delete frames" (Some e)))
        (note (EvRm videoDir) st)
  end.

End Handlers.

End Server.

(* ===================================================================== *)
(** ** Vocabulary of the statements *)
(* ===================================================================== *)

Module Props.
Import Path Disk Frames Server.

#[global] Instance node_eq_dec : EqDecision node.
Proof. solve_decision. Defined.

(** Ascending order of the embedded frame number. *)
Definition by_index (a b : string) : Prop := indexOf a ≤ indexOf b.

(** The map is a tree: whatever is stored has a directory as parent. *)
Definition tree (m : fs) : Prop :=
  map_Forall (λ k _, node_at m (removelast k) = Some Dir) m.

(** The identifiers the uuid generator hands out are plain names. *)
Definition plain_ids (w : world) : Prop :=
  plain_seg (uuid_job w) = true
  ∧ plain_seg (uuid_download w +:+ ".mp4") = true.

(** [f] is a regular file of the staging directory. *)
Definition staged_in (w : world) (m : fs) (f : path) : Prop :=
  ∃ name d, f = dirname w ++ ["temp"; name] ∧ lstat m (plainp f) = IsFile d.

(** The file named by [req.file.path], if any, was stored by the upload
    middleware. *)
Definition upload_staged (w : world) (m : fs) (req : request) : Prop :=
  ∀ f, file_path req = Some f → staged_in w m f.

(** A system call went through. *)
Definition succeeded {A B} (r : A + B) : bool :=
  match r with inr _ => true | inl _ => false end.

(** The interval line 134 computes. When [parseInt] throws there is none;
    [0] stands for that, a value [|| 5] never yields. *)
Definition interval_of (f : field) : Z :=
  match parse_interval f with
  | inr interval => interval
  | inl _ => 0
  end.

(** The interval the handler works with passes its range check. *)
Definition valid_interval (req : request) : Prop :=
  1 ≤ interval_of (interval_field req) ≤ 60.

(** Nothing is stored at [p] or below it. *)
Definition unused (m : fs) (p : path) : Prop :=
  map_Forall (λ k _, ¬ p `prefix_of` k) m.

(** The output directory of the job. *)
Definition job_path (w : world) : path := dirname w ++ ["uploads"; uuid_job w].

(** The state in which the ['end'] callback reads the output directory:
    the directory has been made and the engine has written [frames]. *)
Definition produced (w : world) (frames : list (nat * string)) (m2 : fs)
    (st1 : state) : state :=
  write_frames (job_path w) frames
    (set_disk m2 (EvMkdir (plainp (job_path w))) st1).

(** What [fs.readdir] returns for the directory [p]. *)
Definition listing (w : world) (m : fs) (p : path) : list string :=
  readdir_order w (entries m p).

(** The reply that went out, without the disk snapshot. *)
Definition replied (st : state) : option reply := fst <$> sent st.

(** The disk at the moment the reply went out. *)
Definition disk_at_reply (st : state) : option fs := snd <$> sent st.

(** The replies of the two rejections that come before any extraction. *)
Definition interval_error : reply :=
  Json 400 (JError "Interval must be between 1 and 60 seconds" None).

Definition download_error (msg : string) : reply :=
  Json 400 (JError "Failed to download video from URL" (Some msg)).

End Props.

(* ===================================================================== *)
(** ** The deployed image, for concrete runs *)
(* ===================================================================== *)

Module Example.
Import Path Disk Server.

(** [WORKDIR /usr/src/app], [COPY server.js ./], [RUN mkdir -p uploads temp]
    of the Dockerfile. *)
Definition app : path := ["usr"; "src"; "app"].

Definition image : fs :=
  list_to_map
    [ (["etc"], Dir);
      (["etc"; "passwd"], File "root:x:0:0:root:/root:/bin/bash");
      (["usr"], Dir);
      (["usr"; "src"], Dir);
      (app, Dir);
      (app ++ ["server.js"], File "// server.js");
      (app ++ ["uploads"], Dir);
      (app ++ ["temp"], Dir) ].

Definition clip : upload := Upload ".mp4" "video/mp4" "<mp4 bytes>".

Definition three_frames : list (nat * string) :=
  [(1%nat, "<jpeg 1>"); (2%nat, "<jpeg 2>"); (3%nat, "<jpeg 3>")].

(** A world in which downloads time out and ffmpeg does as [engine] says. *)
Definition world_with (engine : engine_outcome) : world :=
  World app "http://localhost:3000"
    "0b0e7f3c-upload" "6a1d2c9e-download" "c4f1a2b3-job"
    (λ _, DlFailed "timeout of 60000ms exceeded")
    (λ _ _ _, engine)
    id.

Definition world_ok : world := world_with (EngineEnd three_frames).

Definition world_short : world := world_with (EngineEnd [(1%nat, "<jpeg 1>")]).

Definition world_broken : world :=
  world_with (EngineError "ffmpeg exited with code 1" [(1%nat, "<jpeg 1>")]).

(** The same image with one request's upload already stored by the
    middleware. *)
Definition staged_clip : path := app ++ ["temp"; "0b0e7f3c-upload.mp4"].

Definition image_staged : fs := <[staged_clip := File "<mp4 bytes>"]> image.

(** The staged image on which [uploads] is a regular file, and the staged
    image that already holds the frames of an earlier job. *)
Definition image_blocked : fs := <[app ++ ["uploads"] := File "?"]> image_staged.

Definition image_old_job : fs :=
  <[app ++ ["uploads"; "a-older-job"; "frame_1.jpg"] := File "<old jpeg>"]>
    (<[app ++ ["uploads"; "a-older-job"] := Dir]> image_staged).

(** Worlds as [world_with], but where the download delivers a body. *)
Definition world_online (engine : engine_outcome) : world :=
  World app "http://localhost:3000"
    "0b0e7f3c-upload" "6a1d2c9e-download" "c4f1a2b3-job"
    (λ _, DlDone "<downloaded mp4>")
    (λ _ _ _, engine)
    id.

(** An engine that writes frames 10, 2 and 1, frame 2 twice. *)
Definition shuffled_frames : list (nat * string) :=
  [(10%nat, "<jpeg 10>"); (2%nat, "<jpeg 2>"); (1%nat, "<jpeg 1>");
   (2%nat, "<jpeg 2 again>")].

Definition world_shuffled : world := world_with (EngineEnd shuffled_frames).

End Example.

(* ===================================================================== *)
(** ** Places on the disk and shapes of replies *)
(* ===================================================================== *)

Module Places.
Import Path Disk Frames Server Props.

(** [__dirname/uploads] and [__dirname/temp]. *)
Definition uploads_root (w : world) : path := dirname w ++ ["uploads"].

Definition temp_path (w : world) : path := dirname w ++ ["temp"].

(** The file [downloadVideo] writes, and the file multer writes for [u]. *)
Definition download_path (w : world) : path :=
  temp_path w ++ [uuid_download w +:+ ".mp4"].


(** The URL the success reply gives frame [n]. *)
Definition frame_url (w : world) (n : nat) : string :=
  baseUrl w +:+ "/frames/" +:+ uuid_job w +:+ "/" +:+ frame_name n.

Definition no_source_error : reply :=
  Json 400 (JError "Either videoUrl or video file must be provided" None).

Definition extract_error (msg : string) : reply :=
  Json 500 (JError "Failed to extract keyframes" (Some msg)).

Definition not_found : reply := Json 404 (JError "Frame not found" None).

(** The uploaded file, if any, is named inside the staging directory. *)
Definition upload_in_temp (w : world) (req : request) : Prop :=
  ∀ f, file_path req = Some f → ∃ name, f = temp_path w ++ [name].


(** The request without its uploaded file. *)
Definition without_file (req : request) : request :=
  Request (interval_field req) (videoUrl_field req) None.


(** The replies sent along a trace. *)
Definition sends (tr : list event) : list reply :=
  omap (λ e, match e with EvSend r => Some r | _ => None end) tr.

(** The distinct frame numbers the engine wrote, in increasing order. *)
Definition frame_numbers (frames : list (nat * string)) : list nat :=
  merge_sort Nat.le (remove_dups frames.*1).

End Places.

(* ===================================================================== *)
(** * Properties *)
(* ===================================================================== *)

(** ** Strings and paths *)

Module PathFacts.
Import Text Path.

Lemma split_on_plain s :
  contains_char slash s = false → split_on slash s = [s].
Proof.
  induction s as [|c r IH]; simpl; [done|].
  intros [Hc Hr]%orb_false_iff. rewrite Hc, (IH Hr). done.
Qed.

Lemma ends_with_contains c s :
  ends_with_char c s = true → contains_char c s = true.
Proof.
  induction s as [|d r IH]; simpl; [done|].
  destruct r as [|e r']; [intros ->; done|].
  intros H. rewrite (IH H). apply orb_true_r.
Qed.

Lemma plain_seg_inv s :
  plain_seg s = true →
  String.eqb s "" = false ∧ String.eqb s "." = false
  ∧ String.eqb s ".." = false ∧ contains_char slash s = false.
Proof.
  unfold plain_seg. rewrite !andb_true_iff, !negb_true_iff. tauto.
Qed.

Lemma norm_step_plain acc s :
  plain_seg s = true → norm_step acc s = acc ++ [s].
Proof.
  intros (H1 & H2 & H3 & _)%plain_seg_inv.
  unfold norm_step. by rewrite H1, H2, H3.
Qed.

Lemma join_segs_snoc base args s :
  plain_seg s = true → join_segs base (args ++ [s]) = join_segs base args ++ [s].
Proof.
  intros Hs. pose proof (plain_seg_inv _ Hs) as (H1 & _ & _ & H4).
  unfold join_segs, nonempty_args.
  rewrite List.filter_app, flat_map_app, fold_left_app. simpl.
  unfold truthy. rewrite H1. simpl. rewrite app_nil_r, (split_on_plain _ H4).
  simpl. by apply norm_step_plain.
Qed.

Lemma join_slash_snoc args s :
  plain_seg s = true → join_slash (args ++ [s]) = false.
Proof.
  intros Hs. pose proof (plain_seg_inv _ Hs) as (H1 & _ & _ & H4).
  unfold join_slash, nonempty_args. rewrite List.filter_app. simpl.
  unfold truthy. rewrite H1. simpl. rewrite last_snoc.
  destruct (ends_with_char slash s) eqn:E; [|done].
  apply ends_with_contains in E. congruence.
Qed.

(** Joining one plain name onto a path appends it. *)
Lemma join_plain base s :
  plain_seg s = true → join base [s] = plainp (base ++ [s]).
Proof.
  intros Hs. unfold join, plainp. f_equal.
  - exact (join_segs_snoc base [] s Hs).
  - exact (join_slash_snoc [] s Hs).
Qed.

(** The directory of a job whose identifier is a plain name. *)
Lemma join_uploads base vid :
  plain_seg vid = true →
  join base ["uploads"; vid] = plainp (base ++ ["uploads"; vid]).
Proof.
  intros Hv. unfold join, plainp. f_equal.
  - etrans; [exact (join_segs_snoc base ["uploads"] vid Hv)|].
    trans ((base ++ ["uploads"]) ++ [vid]); [done|by rewrite <- app_assoc].
  - exact (join_slash_snoc ["uploads"] vid Hv).
Qed.

(** A frame name that is a plain file name stays below the job's directory,
    whatever the identifier is. *)
Lemma join_frame base vid f :
  plain_seg f = true →
  join base ["uploads"; vid; f]
  = plainp (segs (join base ["uploads"; vid]) ++ [f]).
Proof.
  intros Hf. unfold join, plainp. f_equal.
  - exact (join_segs_snoc base ["uploads"; vid] f Hf).
  - exact (join_slash_snoc ["uploads"; vid] f Hf).
Qed.

End PathFacts.

(** ** The disk *)

Module DiskFacts.
Import Path Disk Props.

Lemma succeeded_inr {A B} (r : A + B) : succeeded r = true → ∃ b, r = inr b.
Proof. destruct r; [done|by eexists]. Qed.

Lemma snoc_middle {A} (pre : list A) s rest :
  pre ++ s :: rest = (pre ++ [s]) ++ rest.
Proof. by rewrite <- app_assoc. Qed.

(** [mkdir -p] only adds directories, and only on the way to its target. *)
Lemma mkdir_from_lookup m pre rest m' q :
  mkdir_from m pre rest = inr m' →
  m' !! q = m !! q
  ∨ (m !! q = None ∧ m' !! q = Some Dir ∧ q `prefix_of` pre ++ rest).
Proof.
  revert m pre. induction rest as [|s rest IH]; intros m pre; simpl.
  - intros [= ->]. by left.
  - destruct (m !! (pre ++ [s])) as [[d|]|] eqn:E; [done|..]; intros H.
    + destruct (IH _ _ H) as [?|(?&?&?)]; [by left|right].
      by rewrite snoc_middle.
    + destruct (IH _ _ H) as [Hq|(Hq&?&?)].
      * destruct (decide (q = pre ++ [s])) as [->|Hne].
        -- right. rewrite Hq, lookup_insert_eq. split_and!; [done..|].
           by exists rest; rewrite <- app_assoc.
        -- left. by rewrite Hq, lookup_insert_ne.
      * right. rewrite snoc_middle. split_and!; [|done..].
        destruct (decide (q = pre ++ [s])) as [->|Hne].
        -- by rewrite lookup_insert_eq in Hq.
        -- by rewrite lookup_insert_ne in Hq.
Qed.

Lemma mkdir_from_target m pre rest m' :
  mkdir_from m pre rest = inr m' → rest ≠ [] → m' !! (pre ++ rest) = Some Dir.
Proof.
  revert m pre. induction rest as [|s rest IH]; intros m pre; simpl; [done|].
  intros H _. rewrite snoc_middle.
  destruct rest as [|s' rest'].
  - rewrite app_nil_r.
    destruct (m !! (pre ++ [s])) as [[d|]|] eqn:E; simplify_eq/=; [done|].
    apply lookup_insert_eq.
  - destruct (m !! (pre ++ [s])) as [[d|]|] eqn:E; [done|..];
      by eapply IH.
Qed.

Lemma mkdir_p_other m p m' q :
  mkdir_p m p = inr m' → ¬ q `prefix_of` segs p → m' !! q = m !! q.
Proof.
  intros H Hq. destruct (mkdir_from_lookup _ _ _ _ q H) as [?|(_&_&?)]; done.
Qed.

Lemma mkdir_p_target m p m' :
  mkdir_p m p = inr m' → node_at m' (segs p) = Some Dir.
Proof.
  intros H. unfold node_at. destruct (segs p) as [|s r] eqn:E; [done|].
  unfold mkdir_p in H. rewrite E in H.
  by apply (mkdir_from_target _ [] _ _ H).
Qed.

(** What [rm -rf] leaves of a directory: nothing at or below it. *)
Lemma rm_dir_lookup (m : fs) (p k : path) :
  filter (λ kv : path * node, ¬ p `prefix_of` kv.1) m !! k
  = if decide (p `prefix_of` k) then None else m !! k.
Proof.
  destruct (decide (p `prefix_of` k)) as [Hp|Hp].
  - apply map_lookup_filter_None. right. intros x _. simpl. tauto.
  - destruct (m !! k) as [x|] eqn:E.
    + by apply map_lookup_filter_Some.
    + apply map_lookup_filter_None. by left.
Qed.

Lemma rm_rf_dir_below m p m' k :
  rm_rf m p = inr m' → lstat m p = IsDir → segs p `prefix_of` k → m' !! k = None.
Proof.
  unfold rm_rf. intros H E. rewrite E in H. injection H as <-. intros Hk.
  rewrite rm_dir_lookup. by case_decide.
Qed.

(** *** Resolving a path *)

(** Resolution reads the map at the prefixes of the path only. *)
Lemma resolve_ext m m' pre rest :
  (∀ q, q `prefix_of` pre ++ rest → m' !! q = m !! q) →
  resolve m' pre rest = resolve m pre rest.
Proof.
  revert pre. induction rest as [|s rest IH]; intros pre H; simpl; [done|].
  rewrite (H (pre ++ [s])) by (exists rest; by rewrite <- app_assoc).
  destruct (m !! (pre ++ [s])) as [[d|]|]; [done| |done].
  apply IH. intros q Hq. apply H. by rewrite snoc_middle.
Qed.

Lemma lstat_ext m m' p :
  (∀ q, q `prefix_of` segs p → m' !! q = m !! q) → lstat m' p = lstat m p.
Proof. intros H. unfold lstat. by rewrite (resolve_ext m m' [] (segs p)). Qed.

(** What a path resolves to stays when entries are added, unless the path
    was missing. *)
Lemma resolve_mono (m m' : fs) pre rest :
  m ⊆ m' → resolve m pre rest ≠ ENOENT →
  resolve m' pre rest = resolve m pre rest.
Proof.
  intros Hsub. revert pre. induction rest as [|s rest IH]; intros pre; simpl; [done|].
  destruct (m !! (pre ++ [s])) as [n|] eqn:E; [|done].
  rewrite (lookup_weaken _ _ _ _ E Hsub).
  destruct n; [done|]. apply IH.
Qed.

Lemma lstat_mono (m m' : fs) p d :
  m ⊆ m' → lstat m p = IsFile d → lstat m' p = IsFile d.
Proof.
  intros Hsub. unfold lstat. intros H.
  rewrite (resolve_mono m m' [] (segs p) Hsub); [done|].
  by destruct (resolve m [] (segs p)).
Qed.

Lemma mkdir_from_subseteq m pre rest m' :
  mkdir_from m pre rest = inr m' → m ⊆ m'.
Proof.
  revert m pre. induction rest as [|s rest IH]; intros m pre; simpl.
  - by intros [= ->].
  - destruct (m !! (pre ++ [s])) as [[d|]|] eqn:E; [done|apply IH|].
    intros H%IH. etrans; [|exact H]. by apply insert_subseteq.
Qed.

Lemma mkdir_from_resolves m pre rest m' :
  mkdir_from m pre rest = inr m' → resolve m' pre rest = IsDir.
Proof.
  revert m pre. induction rest as [|s rest IH]; intros m pre; simpl; [done|].
  destruct (m !! (pre ++ [s])) as [[d|]|] eqn:E; [done|..]; intros H.
  - rewrite (lookup_weaken _ _ _ _ E (mkdir_from_subseteq _ _ _ _ H)).
    by eapply IH.
  - rewrite (lookup_weaken _ m' _ Dir (lookup_insert_eq _ _ _)
               (mkdir_from_subseteq _ _ _ _ H)).
    by eapply IH.
Qed.

Lemma mkdir_p_resolves m p m' :
  mkdir_p m p = inr m' → resolve m' [] (segs p) = IsDir.
Proof. apply mkdir_from_resolves. Qed.

Lemma mkdir_p_lstat m p m' q d :
  mkdir_p m p = inr m' → lstat m q = IsFile d → lstat m' q = IsFile d.
Proof. intros H. apply lstat_mono. by eapply mkdir_from_subseteq. Qed.

(** One segment more: the path so far must be a directory. *)
Lemma resolve_snoc m pre rest s :
  resolve m pre (rest ++ [s])
  = match resolve m pre rest with
    | IsDir => match m !! (pre ++ rest ++ [s]) with
               | None => ENOENT
               | Some Dir => IsDir
               | Some (File d) => IsFile d
               end
    | ENOENT => ENOENT
    | ENOTDIR | IsFile _ => ENOTDIR
    end.
Proof.
  revert pre. induction rest as [|a rest IH]; intros pre; simpl.
  - by destruct (m !! (pre ++ [s])) as [[d|]|].
  - destruct (m !! (pre ++ [a])) as [[d|]|]; [|by rewrite IH, <- app_assoc|done].
    by destruct rest.
Qed.

Lemma lstat_plainp m p : lstat m (plainp p) = resolve m [] p.
Proof. unfold lstat. simpl. by destruct (resolve m [] p). Qed.

Lemma resolve_IsFile m p d : resolve m [] p = IsFile d → m !! p = Some (File d).
Proof.
  destruct p as [|s p _] using rev_ind; [done|].
  rewrite resolve_snoc. simpl.
  destruct (resolve m [] p); try done.
  destruct (m !! (p ++ [s])) as [[d'|]|]; try done. by intros [= ->].
Qed.

Lemma lstat_IsFile m p d : lstat m p = IsFile d → m !! segs p = Some (File d).
Proof.
  unfold lstat. destruct (resolve m [] (segs p)) eqn:E; try done.
  destruct (dirslash p); [done|]. intros [= ->]. by apply resolve_IsFile.
Qed.

Lemma lstat_IsFile_lookup m p d :
  lstat m (plainp p) = IsFile d → m !! p = Some (File d).
Proof. rewrite lstat_plainp. apply resolve_IsFile. Qed.

(** Where nothing is stored nothing is found; the error tells whether a
    regular file was in the way. *)
Lemma resolve_absent m p :
  m !! p = None → p ≠ [] →
  resolve m [] p = ENOENT ∨ resolve m [] p = ENOTDIR.
Proof.
  destruct p as [|s p _] using rev_ind; [done|]. intros H _.
  rewrite resolve_snoc. simpl. rewrite H.
  destruct (resolve m [] p); auto.
Qed.

(** A file right below a directory. *)
Lemma lstat_child_file m p s d :
  resolve m [] p = IsDir → m !! (p ++ [s]) = Some (File d) →
  lstat m (plainp (p ++ [s])) = IsFile d.
Proof. intros Hp Hs. by rewrite lstat_plainp, resolve_snoc, Hp; simpl; rewrite Hs. Qed.

Lemma resolve_insert_below m p s n :
  resolve (<[p ++ [s] := n]> m) [] p = resolve m [] p.
Proof.
  apply resolve_ext. intros q Hq. apply lookup_insert_ne.
  intros <-. by apply (prefix_snoc_not p s).
Qed.

(** A write stream opens only inside a directory. *)
Lemma open_w_inr m p s m1 :
  open_w m (p ++ [s]) = inr m1 →
  resolve m [] p = IsDir ∧ m1 = <[p ++ [s] := File ""]> m.
Proof.
  unfold open_w. rewrite removelast_last.
  destruct (resolve m [] p); try done.
  destruct (node_at m (p ++ [s])) as [[d|]|]; by intros [= <-].
Qed.

(** [child_of] recognises exactly the direct children. *)
Lemma child_of_Some p k s : child_of p k = Some s ↔ k = p ++ [s].
Proof.
  revert k. induction p as [|a p IH]; intros k; simpl.
  - destruct k as [|b [|c k]]; split; intros ?; by simplify_eq/=.
  - destruct k as [|b k]; [split; intros ?; by simplify_eq/=|].
    case_decide as Hab; [subst; rewrite IH|]; split; intros ?; by simplify_eq/=.
Qed.

Lemma elem_of_entries (m : fs) p s :
  s ∈ entries m p ↔ is_Some (m !! (p ++ [s])).
Proof.
  unfold entries. rewrite list_elem_of_omap. split.
  - intros (k & Hk & ->%child_of_Some).
    apply list_elem_of_fmap in Hk as ([k' n] & -> & Hk).
    apply elem_of_map_to_list in Hk. by exists n.
  - intros [n Hn]. exists (p ++ [s]). split; [|by apply child_of_Some].
    apply list_elem_of_fmap. exists (p ++ [s], n). split; [done|].
    by apply elem_of_map_to_list.
Qed.

Lemma NoDup_omap_inj {A B} (f : A → option B) (l : list A) :
  (∀ x y z, f x = Some z → f y = Some z → x = y) →
  NoDup l → NoDup (omap f l).
Proof.
  intros Hinj. induction 1 as [|x l Hx Hl IH]; simpl; [constructor|].
  destruct (f x) as [z|] eqn:E; [|done].
  constructor; [|done].
  intros (y & Hy & Hfy)%list_elem_of_omap.
  by rewrite (Hinj _ _ _ E Hfy) in Hx.
Qed.

Lemma NoDup_entries (m : fs) p : NoDup (entries m p).
Proof.
  apply NoDup_omap_inj; [|apply NoDup_fst_map_to_list].
  intros x y z ->%child_of_Some ->%child_of_Some. done.
Qed.

(** A list without repetition whose members are those of [l], itself
    without repetition, is a rearrangement of [l]. *)
Lemma entries_perm (m : fs) p (l : list string) :
  NoDup l → (∀ s, s ∈ l ↔ is_Some (m !! (p ++ [s]))) → entries m p ≡ₚ l.
Proof.
  intros Hl Hs. apply NoDup_Permutation; [apply NoDup_entries|done|].
  intros s. by rewrite elem_of_entries, Hs.
Qed.

End DiskFacts.

(** ** Collecting the frames *)

Module FramesFacts.
Import Text Path Frames Props.

Lemma read_digits_seen val radix acc s :
  is_Some (read_digits val radix true acc s).
Proof.
  revert acc. induction s as [|c r IH]; intros acc; simpl; [by eexists|].
  destruct (val c); [apply IH|by eexists].
Qed.

Lemma digit_not_space c : is_digit c = true → is_space c = false.
Proof.
  unfold is_digit, is_space.
  intros [H1%Nat.leb_le H2%Nat.leb_le]%andb_true_iff.
  apply orb_false_iff; split.
  - apply andb_false_iff. right. apply Nat.leb_gt. lia.
  - apply Nat.eqb_neq. lia.
Qed.

(** White space starts with a white space byte or with a byte from [C2]
    up; any other first byte stops [skip_spaces]. *)
Lemma skip_spaces_ascii c r :
  (nat_of_ascii c < 128)%nat → is_space c = false →
  skip_spaces (String c r) = String c r.
Proof.
  intros Hc Hs. simpl. rewrite Hs.
  assert (∀ n, (128 ≤ n)%nat → (nat_of_ascii c =? n)%nat = false) as Hn.
  { intros n Hn. apply Nat.eqb_neq. lia. }
  assert (∀ d, is_space2 c d = false) as H2.
  { intros d. unfold is_space2. by rewrite Hn by lia. }
  assert (∀ d e, is_space3 c d e = false) as H3.
  { intros d e. unfold is_space3. by rewrite !Hn by lia. }
  destruct r as [|d [|e r2]]; by rewrite ?H2, ?H3.
Qed.

(** The no-break space U+00A0 before a number is skipped like a space. *)
Lemma parseInt_no_break_space s :
  parseInt (String "194" (String "160" s)) = parseInt s.
Proof. done. Qed.

Lemma skip_spaces_digit c r :
  is_digit c = true → skip_spaces (String c r) = String c r.
Proof.
  intros Hc. apply skip_spaces_ascii; [|by apply digit_not_space].
  unfold is_digit in Hc.
  apply andb_true_iff in Hc as [_ H%Nat.leb_le]. lia.
Qed.

Lemma digit_not_char c (d : ascii) :
  is_digit c = true → is_digit d = false → Ascii.eqb c d = false.
Proof. intros Hc Hd. destruct (Ascii.eqb_spec c d) as [->|]; congruence. Qed.

Lemma take_digits_head s x t :
  take_digits s = String x t → is_digit x = true.
Proof.
  destruct s as [|c r]; simpl; [done|].
  destruct (is_digit c) eqn:E; [|done]. by intros [= <- _].
Qed.

(** [parseInt] of a run of digits that starts with a digit is a number. *)
Lemma parseInt_digit_run c r :
  is_digit c = true → is_Some (parseInt (take_digits (String c r))).
Proof.
  intros Hc. simpl. rewrite Hc. unfold parseInt.
  rewrite (skip_spaces_digit _ _ Hc). unfold read_sign.
  rewrite (digit_not_char c "-" Hc), (digit_not_char c "+" Hc) by done.
  assert (read_radix (String c (take_digits r))
          = (dec_val, 10, String c (take_digits r))) as ->.
  { unfold read_radix. destruct (take_digits r) as [|x t] eqn:E; [done|].
    apply take_digits_head in E.
    by rewrite (digit_not_char x "x" E), (digit_not_char x "X" E), andb_false_r. }
  simpl. unfold dec_val at 1. rewrite Hc.
  destruct (read_digits_seen dec_val 10 (0 * 10 + digit_val c) (take_digits r))
    as [n ->]. by eexists.
Qed.

Lemma match_digits_Some f ds :
  match_digits f = Some ds → is_Some (parseInt ds).
Proof.
  induction f as [|c r IH]; simpl; [done|].
  destruct (is_digit c) eqn:E; [|done].
  intros [= <-]. pose proof (parseInt_digit_run c r E) as H.
  simpl in H. by rewrite E in H.
Qed.

(** A name on which the comparator does not throw has a number. *)
Lemma numOf_Some f : throws f = false → numOf f = Some (indexOf f).
Proof.
  unfold throws, indexOf, numOf.
  destruct (match_digits f) as [ds|] eqn:E; [|done]. intros _. simpl.
  by destruct (match_digits_Some _ _ E) as [n ->].
Qed.

Lemma compareFrames_diff a b :
  throws a = false → throws b = false →
  compareFrames a b = indexOf a - indexOf b.
Proof.
  intros Ha Hb. unfold compareFrames.
  by rewrite (numOf_Some _ Ha), (numOf_Some _ Hb).
Qed.

(** Insertion sort: a rearrangement ... *)
Lemma insert_by_perm cmp x l : insert_by cmp x l ≡ₚ x :: l.
Proof.
  induction l as [|y l IH]; simpl; [done|].
  destruct (cmp x y <=? 0); [done|].
  by rewrite IH, Permutation_swap.
Qed.

Lemma sort_by_perm cmp l : sort_by cmp l ≡ₚ l.
Proof.
  induction l as [|x l IH]; simpl; [done|].
  by rewrite insert_by_perm, IH.
Qed.

(** ... in ascending order of the key the comparator subtracts. *)
Section Sorted.
Variable key : string → Z.
Variable cmp : string → string → Z.
Variable P : string → Prop.
Hypothesis cmp_key : ∀ a b, P a → P b → cmp a b = key a - key b.

Let le_key (a b : string) : Prop := key a ≤ key b.

Lemma insert_by_sorted x l :
  P x → Forall P l →
  StronglySorted le_key l → StronglySorted le_key (insert_by cmp x l).
Proof.
  intros Hx Hl Hs. induction Hs as [|y l Hs IH Hy]; simpl.
  - repeat constructor.
  - apply Forall_cons in Hl as [HPy HPl].
    rewrite (cmp_key x y Hx HPy).
    destruct (key x - key y <=? 0) eqn:E.
    + apply Z.leb_le in E. constructor; [by constructor|].
      constructor; [unfold le_key; lia|].
      eapply Forall_impl; [exact Hy|]. unfold le_key. intros; simpl in *; lia.
    + apply Z.leb_gt in E. constructor; [by apply IH|].
      rewrite insert_by_perm. constructor; [unfold le_key; lia|done].
Qed.

Lemma sort_by_sorted l :
  Forall P l → StronglySorted le_key (sort_by cmp l).
Proof.
  induction 1 as [|x l Hx Hl IH]; simpl; [constructor|].
  apply insert_by_sorted; [done| |done].
  by rewrite sort_by_perm.
Qed.

End Sorted.

(** The sorting step of the callback, when no name makes it throw. *)
Lemma sortFrames_sorted l :
  Forall (λ f, throws f = false) l →
  ∃ names, sortFrames l = Some names
           ∧ names ≡ₚ l ∧ StronglySorted by_index names.
Proof.
  intros Hl. destruct l as [|a [|b l]].
  - exists []. repeat split; constructor.
  - exists [a]. repeat split; repeat constructor.
  - exists (sort_by compareFrames (a :: b :: l)).
    assert (forallb (λ f, negb (throws f)) (a :: b :: l) = true) as Hall.
    { apply forallb_forall. intros f Hf%list_elem_of_In.
      rewrite Forall_forall in Hl. by rewrite (Hl f Hf). }
    unfold sortFrames. rewrite Hall. split_and!; [done|apply sort_by_perm|].
    apply (sort_by_sorted indexOf compareFrames (λ f, throws f = false));
      [|done].
    intros; by apply compareFrames_diff.
Qed.

Lemma collectFrames_sorted outputDir files :
  (∀ f, f ∈ files → isFrame f = true → throws f = false) →
  ∃ names,
    collectFrames outputDir files = Some (map (λ f, join outputDir [f]) names)
    ∧ names ≡ₚ List.filter isFrame files
    ∧ StronglySorted by_index names.
Proof.
  intros H.
  destruct (sortFrames_sorted (List.filter isFrame files)) as (names & E & ?).
  { apply Forall_forall. intros f [Hf ?]%list_elem_of_In%filter_In.
    apply H; [by apply list_elem_of_In|done]. }
  exists names. unfold collectFrames. by rewrite E.
Qed.

End FramesFacts.

(** ** Serving and deleting frames *)

Module FrameRoutes.
Import Text Path Disk Server Props Example PathFacts DiskFacts.

Lemma tree_parent m k s :
  tree m → is_Some (m !! (k ++ [s])) → node_at m k = Some Dir.
Proof.
  intros Ht [n Hn]. specialize (Ht _ _ Hn). simpl in Ht.
  by rewrite removelast_last in Ht.
Qed.

Lemma existsSync_absent (m : fs) p :
  m !! p = None → p ≠ [] → existsSync m (plainp p) = false.
Proof.
  intros H Hp. unfold existsSync. rewrite lstat_plainp.
  by destruct (resolve_absent m p H Hp) as [-> | ->].
Qed.

(** C1, the run that refutes it: a frame name with separators and parent
    references walks out of the job's directory, and the handler hands
    [/etc/passwd] to [res.sendFile] instead of answering 404. *)
Lemma getFrame_escapes_job_directory :
  let frameName := "../../../../../etc/passwd" in
  let st := getFrame world_ok "c4f1a2b3-job" frameName (start image) in
  contains_char slash frameName = true
  ∧ replied st = Some (SendFile (plainp ["etc"; "passwd"]))
  ∧ image !! ["etc"; "passwd"] = Some (File "root:x:0:0:root:/root:/bin/bash")
  ∧ ¬ (app ++ ["uploads"; "c4f1a2b3-job"]) `prefix_of` ["etc"; "passwd"].
Proof.
  split_and!; [by vm_compute..|].
  intros [k Hk]. discriminate Hk.
Qed.

(** C1 as the code has it: the handler joins [uploads], the identifier and
    the frame name, normalises, answers 404 when nothing exists at the
    resulting path and passes that path to [res.sendFile] otherwise; the
    path is sure to lie in the job's directory when the frame name is a plain
    file name. *)
Theorem getFrame_serves_normalised_path w m videoId frameName :
  let p := join (dirname w) ["uploads"; videoId; frameName] in
  let st := getFrame w videoId frameName (start m) in
  disk st = m
  ∧ (existsSync m p = false →
     replied st = Some (Json 404 (JError "Frame not found" None)))
  ∧ (existsSync m p = true → replied st = Some (SendFile p))
  ∧ (plain_seg frameName = true →
     p = plainp (segs (join (dirname w) ["uploads"; videoId]) ++ [frameName])).
Proof.
  simpl. unfold getFrame, replied. simpl.
  split_and!.
  - by destruct (existsSync _ _).
  - by intros ->.
  - by intros ->.
  - apply join_frame.
Qed.

Lemma getFrame_serves_normalised_path_witness :
  join app ["uploads"; "c4f1a2b3-job"; "frame_1.jpg"]
  = plainp (app ++ ["uploads"; "c4f1a2b3-job"; "frame_1.jpg"]).
Proof.
  apply (getFrame_serves_normalised_path world_ok image "c4f1a2b3-job" "frame_1.jpg").
  reflexivity.
Defined.

(** C10: the identifier is joined to the uploads root as it comes, and the
    result is removed recursively; with [".."] the result is the
    application directory itself, which goes with all it holds. *)
Theorem deleteFrames_parent_reference w m :
  lstat m (plainp (dirname w)) = IsDir →
  let st := deleteFrames w ".." (start m) in
  (∀ videoId, ∃ r,
     trace (deleteFrames w videoId (start m))
     = [EvRm (join (dirname w) ["uploads"; videoId]); EvSend r])
  ∧ join (dirname w) ["uploads"; ".."] = plainp (dirname w)
  ∧ replied st = Some (Json 200 JDeleted)
  ∧ ∀ k, dirname w `prefix_of` k → disk st !! k = None.
Proof.
  intros Hdir. simpl.
  assert (join (dirname w) ["uploads"; ".."] = plainp (dirname w)) as Hj.
  { unfold join, plainp. f_equal.
    change (removelast (dirname w ++ ["uploads"]) = dirname w).
    apply removelast_last. }
  split_and!; [|done|..].
  - intros videoId. unfold deleteFrames.
    destruct (rm_rf _ _); simpl; by eexists.
  - unfold deleteFrames. rewrite Hj. unfold rm_rf. simpl. by rewrite Hdir.
  - intros k Hk. unfold deleteFrames. rewrite Hj.
    destruct (rm_rf (disk (start m)) (plainp (dirname w))) as [e|m'] eqn:E.
    + unfold rm_rf in E. simpl in E. by rewrite Hdir in E.
    + simpl. by eapply rm_rf_dir_below.
Qed.

Lemma deleteFrames_parent_reference_witness :
  let st := deleteFrames world_ok ".." (start image) in
  replied st = Some (Json 200 JDeleted)
  ∧ disk st !! (app ++ ["server.js"]) = None
  ∧ image !! (app ++ ["server.js"]) = Some (File "// server.js").
Proof.
  destruct (deleteFrames_parent_reference world_ok image) as (_ & _ & Hr & Hk).
  { reflexivity. }
  split_and!; [exact Hr| |reflexivity].
  apply Hk. by exists ["server.js"].
Defined.







End FrameRoutes.

(** ** The extraction pipeline *)

Module Pipeline.
Import Text Path Disk Frames Server Props Example.
Import PathFacts DiskFacts FramesFacts FrameRoutes.

Section Steps.
Variable w : world.

(** *** Writing frames *)

Lemma write_frames_snoc od frames f st :
  write_frames od (frames ++ [f]) st
  = write_frame od (write_frames od frames st) f.
Proof. unfold write_frames. by rewrite foldl_app. Qed.

Lemma write_frames_sent od frames st :
  sent (write_frames od frames st) = sent st.
Proof.
  induction frames as [|f frames IH] using rev_ind; simpl; [done|].
  by rewrite write_frames_snoc.
Qed.

(** A path is either left alone or now holds a frame. *)
Lemma write_frames_lookup od frames st k :
  disk (write_frames od frames st) !! k = disk st !! k
  ∨ ∃ f d, f ∈ frames ∧ k = od ++ [frame_name f.1]
           ∧ disk (write_frames od frames st) !! k = Some (File d).
Proof.
  induction frames as [|f frames IH] using rev_ind; simpl; [by left|].
  rewrite write_frames_snoc. simpl.
  destruct (decide (k = od ++ [frame_name f.1])) as [->|Hne].
  - right. exists f, f.2. rewrite lookup_insert_eq.
    split_and!; [|done..]. apply elem_of_app. right. by apply list_elem_of_singleton.
  - rewrite lookup_insert_ne by done.
    destruct IH as [?|(f' & d & ? & ? & ?)]; [by left|right].
    exists f', d. split_and!; [|done..]. apply elem_of_app. by left.
Qed.

Lemma write_frames_other od frames st k :
  (∀ s, k ≠ od ++ [s]) →
  disk (write_frames od frames st) !! k = disk st !! k.
Proof.
  intros Hk. destruct (write_frames_lookup od frames st k)
    as [?|(f & d & _ & ? & _)]; [done|]. by destruct (Hk (frame_name f.1)).
Qed.

Lemma write_frames_outside od frames st k :
  ¬ od `prefix_of` k →
  disk (write_frames od frames st) !! k = disk st !! k.
Proof.
  intros Hk. apply write_frames_other. intros s ->. apply Hk. by exists [s].
Qed.

Lemma write_frames_resolve od frames st :
  resolve (disk (write_frames od frames st)) [] od = resolve (disk st) [] od.
Proof.
  apply resolve_ext. intros q Hq. apply write_frames_other.
  intros s ->. by apply (prefix_snoc_not od s).
Qed.

(** Every frame the engine wrote is a file of the output directory. *)
Lemma write_frames_written od frames st f :
  f ∈ frames →
  ∃ d, disk (write_frames od frames st) !! (od ++ [frame_name f.1])
       = Some (File d).
Proof.
  induction frames as [|f' frames IH] using rev_ind; [by intros ?%elem_of_nil|].
  rewrite write_frames_snoc. simpl.
  intros [Hf| ->%list_elem_of_singleton]%elem_of_app.
  - destruct (decide (od ++ [frame_name f.1] = od ++ [frame_name f'.1]))
      as [->|Hne].
    + exists f'.2. apply lookup_insert_eq.
    + rewrite lookup_insert_ne by done. by apply IH.
  - exists f'.2. apply lookup_insert_eq.
Qed.

Lemma write_frames_children od frames st s :
  is_Some (disk (write_frames od frames st) !! (od ++ [s]))
  ↔ is_Some (disk st !! (od ++ [s])) ∨ s ∈ map (λ f, frame_name f.1) frames.
Proof.
  split.
  - intros H. destruct (write_frames_lookup od frames st (od ++ [s]))
      as [E|(f & d & Hf & Hk & _)].
    + left. by rewrite <- E.
    + right. apply app_inv_head in Hk. injection Hk as ->.
      apply list_elem_of_fmap. by exists f.
  - intros [[n Hn]|Hs].
    + destruct (write_frames_lookup od frames st (od ++ [s]))
        as [E|(f & d & _ & _ & E)]; rewrite E; by eexists.
    + apply list_elem_of_fmap in Hs as (f & -> & Hf).
      destruct (write_frames_written od frames st f Hf) as [d ->]. by eexists.
Qed.

(** *** Paths of the staging area and of the jobs *)

Lemma temp_not_uploads (base : path) name rest s :
  base ++ ["temp"; name] ≠ (base ++ "uploads" :: rest) ++ [s].
Proof.
  rewrite <- app_assoc. intros H%app_inv_head. simpl in H.
  by injection H.
Qed.

Lemma temp_not_below_uploads (base : path) name rest :
  ¬ (base ++ "uploads" :: rest) `prefix_of` base ++ ["temp"; name].
Proof. intros H%prefix_app_inv. by apply prefix_cons_inv_1 in H. Qed.

Lemma tempDir_segs : segs (tempDir w) = dirname w ++ ["temp"].
Proof. done. Qed.

(** *** [cleanup] *)

Lemma cleanup_sent p st : sent (cleanup p st) = sent st.
Proof. unfold cleanup. by destruct (unlink _ _). Qed.

Lemma cleanup_trace p st : trace (cleanup p st) = trace st ++ [EvUnlink p].
Proof. unfold cleanup. by destruct (unlink _ _). Qed.

Lemma cleanup_file p d st :
  lstat (disk st) (plainp p) = IsFile d →
  disk (cleanup (plainp p) st) = delete p (disk st).
Proof. intros H. unfold cleanup, unlink. by rewrite H. Qed.

(** The staged video is out of the way of a job's directory: what changes
    only there leaves it as it is. *)
Lemma staged_kept (m m' : fs) (base : path) name rest d :
  (∀ k, ¬ (base ++ "uploads" :: rest) `prefix_of` k → m' !! k = m !! k) →
  lstat m (plainp (base ++ ["temp"; name])) = IsFile d →
  lstat m' (plainp (base ++ ["temp"; name])) = IsFile d.
Proof.
  intros H <-. apply lstat_ext. intros q Hq. apply H.
  intros Hpre. apply (temp_not_below_uploads base name rest). by etrans.
Qed.

(** *** Acquisition *)

Lemma ensure_temp_sent st st1 : ensure_temp w st = inr st1 → sent st1 = sent st.
Proof.
  unfold ensure_temp. destruct (existsSync _ _); [by intros [= ->]|].
  destruct (mkdir_p _ _); [done|]. by intros [= <-].
Qed.

(** A download that resolves leaves a regular file in the staging
    directory and has sent nothing. *)
Lemma downloadVideo_resolved url st st1 vp :
  plain_ids w →
  downloadVideo w url st = (st1, Resolved vp) →
  vp = plainp (dirname w ++ ["temp"; uuid_download w +:+ ".mp4"])
  ∧ (∃ d, lstat (disk st1) vp = IsFile d)
  ∧ sent st1 = sent st.
Proof.
  intros [_ Hdl]. unfold downloadVideo.
  rewrite (join_plain _ _ Hdl), tempDir_segs. simpl segs.
  destruct (ensure_temp w st) as [e|st0] eqn:E; [done|].
  destruct (open_w _ _) as [e|m1] eqn:Ho; [done|].
  apply open_w_inr in Ho as [Hdir ->].
  destruct (axios_get w url); intros H; simplify_eq/=.
  rewrite <- app_assoc.
  split_and!; [done| |by eapply ensure_temp_sent].
  eexists. change (dirname w ++ ["temp"; uuid_download w +:+ ".mp4"])
    with (dirname w ++ ["temp"] ++ [uuid_download w +:+ ".mp4"]).
  rewrite app_assoc. apply lstat_child_file; [|apply lookup_insert_eq].
  by rewrite !resolve_insert_below.
Qed.

Lemma acquire_staged req m st1 vp :
  plain_ids w → upload_staged w m req →
  acquire w req (start m) = (st1, Staged vp) →
  (∃ name, vp = plainp (dirname w ++ ["temp"; name]))
  ∧ (∃ d, lstat (disk st1) vp = IsFile d)
  ∧ sent st1 = None.
Proof.
  intros Hids Hup. unfold acquire.
  destruct (url_given req) as [url|].
  - destruct (downloadVideo w url (start m)) as [st' [vp'|msg|]] eqn:E;
      intros H; simplify_eq/=.
    destruct (downloadVideo_resolved _ _ _ _ Hids E) as (-> & ? & ?).
    split_and!; [by eexists|done..].
  - destruct (file_path req) as [f|] eqn:E; intros H; simplify_eq/=.
    destruct (Hup f E) as (name & d & -> & Hd).
    split_and!; by eexists.
Qed.

(** *** Listing the output directory *)

Lemma readdir_dir m p :
  lstat m p = IsDir → readdir w m p = inr (listing w m (segs p)).
Proof. intros H. unfold readdir. by rewrite H. Qed.

Lemma readdir_inr m p files :
  readdir w m p = inr files → files = listing w m (segs p).
Proof. unfold readdir. destruct (lstat m p); by intros [= <-]. Qed.

(** The directory the handler has just made can be listed, whatever the
    engine wrote into it. *)
Lemma readdir_after_mkdir st1 od m2 frames e :
  mkdir_p (disk st1) od = inr m2 →
  readdir w (disk (write_frames (segs od) frames (set_disk m2 e st1))) od
  = inr (listing w
           (disk (write_frames (segs od) frames (set_disk m2 e st1)))
           (segs od)).
Proof.
  intros Hmk. apply readdir_dir. unfold lstat.
  rewrite write_frames_resolve. simpl.
  by rewrite (mkdir_p_resolves _ _ _ Hmk).
Qed.

Lemma produced_readdir st1 m2 frames :
  mkdir_p (disk st1) (plainp (job_path w)) = inr m2 →
  readdir w (disk (produced w frames m2 st1)) (plainp (job_path w))
  = inr (listing w (disk (produced w frames m2 st1)) (job_path w)).
Proof. apply readdir_after_mkdir. Qed.

(** *** From the staged video to the reply *)

Lemma parse_interval_of f i : parse_interval f = inr i → interval_of f = i.
Proof. unfold interval_of. by intros ->. Qed.


(** A valid interval is one that line 134 did compute. *)
Lemma parse_valid req :
  valid_interval req →
  parse_interval (interval_field req) = inr (interval_of (interval_field req)).
Proof.
  unfold valid_interval, interval_of.
  destruct (parse_interval _); [lia|done].
Qed.

Lemma in_range i : 1 ≤ i ≤ 60 → (i <? 1) || (i >? 60) = false.
Proof.
  intros [H1 H2]. apply orb_false_iff. rewrite Z.gtb_ltb.
  split; by apply Z.ltb_ge.
Qed.

Lemma out_of_range i : ¬ 1 ≤ i ≤ 60 → (i <? 1) || (i >? 60) = true.
Proof.
  intros H. apply orb_true_iff. rewrite Z.gtb_ltb.
  destruct (decide (i < 1)); [left|right]; apply Z.ltb_lt; lia.
Qed.

Lemma try_block_valid req st :
  valid_interval req →
  try_block w req st = try_with w (interval_of (interval_field req)) req st.
Proof. intros Hv. unfold try_block. by rewrite (parse_valid _ Hv). Qed.

Lemma post_staged req st st1 vp :
  valid_interval req →
  acquire w req st = (st1, Staged vp) →
  postExtractKeyframes w req st
  = let a := extract_into w (interval_of (interval_field req)) vp st1 in
    match how a with
    | Returned => finally_block (videoPath a) (after a)
    | Threw msg =>
        finally_block (videoPath a) (catch_block msg (outputDir a) (after a))
    | Stuck => after a
    end.
Proof.
  intros Hv Ha. unfold postExtractKeyframes.
  rewrite (try_block_valid _ _ Hv). unfold try_with.
  rewrite (in_range _ Hv). by rewrite Ha.
Qed.

Lemma job_dir : plain_ids w →
  join (dirname w) ["uploads"; uuid_job w]
  = plainp (dirname w ++ ["uploads"; uuid_job w]).
Proof. intros [Hj _]. by apply join_uploads. Qed.

End Steps.

End Pipeline.

(** ** POST /extract-keyframes: failure of the engine *)

Module EngineFailure.
Import Text Path Disk Frames Server Props Example.
Import PathFacts DiskFacts FramesFacts FrameRoutes Pipeline.

(** C2, the run that refutes it: ffmpeg fails on an uploaded clip; when the
    500 goes out the output directory is gone but the staged clip is still
    on disk, and its [unlink] comes after the reply. *)
Lemma staged_video_outlives_error_reply :
  let req := Request (Str "5") None (Some staged_clip) in
  let st := postExtractKeyframes world_broken req (start image_staged) in
  let od := plainp (app ++ ["uploads"; "c4f1a2b3-job"]) in
  let r := Json 500 (JError "Failed to extract keyframes"
                       (Some "FFmpeg error: ffmpeg exited with code 1")) in
  (∃ snap, sent st = Some (r, snap)
           ∧ snap !! staged_clip = Some (File "<mp4 bytes>")
           ∧ snap !! segs od = None)
  ∧ trace st
    = [EvMkdir od; EvFrame (segs od ++ ["frame_1.jpg"]); EvRm od; EvSend r;
       EvUnlink (plainp staged_clip)].
Proof.
  split; [|by vm_compute].
  eexists. split_and!; [reflexivity|by vm_compute..].
Qed.

(** C2 as the code has it: when acquisition succeeded and the engine
    reports an error, the handler removes the output directory, then sends
    the 500, then unlinks the staged video; once the handler is done neither
    of the two exists. *)
Theorem extraction_failure_rolls_back w req m st1 vp m2 msg frames :
  plain_ids w → upload_staged w m req → valid_interval req →
  acquire w req (start m) = (st1, Staged vp) →
  let od := join (dirname w) ["uploads"; uuid_job w] in
  mkdir_p (disk st1) od = inr m2 →
  ffmpeg w m2 vp (interval_of (interval_field req)) = EngineError msg frames →
  let st := postExtractKeyframes w req (start m) in
  let r := Json 500 (JError "Failed to extract keyframes"
                       (Some ("FFmpeg error: " +:+ msg))) in
  replied st = Some r
  ∧ (∃ snap, disk_at_reply st = Some snap
             ∧ (∀ k, segs od `prefix_of` k → snap !! k = None)
             ∧ is_Some (snap !! segs vp))
  ∧ disk st !! segs vp = None
  ∧ (∀ k, segs od `prefix_of` k → disk st !! k = None)
  ∧ ∃ before, trace st = before ++ [EvRm od; EvSend r; EvUnlink vp].
Proof.
  intros Hids Hup Hint Hacq od Hmk Heng st r.
  destruct (acquire_staged w req m st1 vp Hids Hup Hacq)
    as ([name ->] & [d Hd] & Hsent).
  subst st od. pose proof (job_dir w Hids) as Hjob. rewrite Hjob in Hmk |- *.
  rewrite (post_staged w req _ _ _ Hint Hacq).
  unfold extract_into. rewrite Hjob, Hmk. unfold extractKeyframes.
  simpl disk. rewrite Heng. simpl.
  set (odp := dirname w ++ ["uploads"; uuid_job w]) in *.
  set (vpp := dirname w ++ ["temp"; name]) in *.
  set (st2 := write_frames odp frames _).
  assert (lstat (disk st2) (plainp vpp) = IsFile d) as Hvp.
  { apply (staged_kept m2 _ (dirname w) name [uuid_job w]).
    - intros k Hk. unfold st2. by rewrite write_frames_outside.
    - by eapply mkdir_p_lstat. }
  assert (lstat (disk st2) (plainp odp) = IsDir) as Hls.
  { rewrite lstat_plainp. unfold st2. rewrite write_frames_resolve.
    exact (mkdir_p_resolves _ _ _ Hmk). }
  unfold catch_block, rm_rf. rewrite Hls. cbv beta iota.
  change (segs (plainp odp)) with odp. fold r.
  set (m3 := filter (λ kv : path * node, ¬ odp `prefix_of` kv.1) (disk st2)).
  set (st4 := send r (set_disk m3 (EvRm (plainp odp)) st2)).
  assert (lstat m3 (plainp vpp) = IsFile d) as Hvp'.
  { apply (staged_kept (disk st2) _ (dirname w) name [uuid_job w]); [|done].
    intros k Hk. unfold m3. by rewrite rm_dir_lookup, decide_False. }
  assert (∀ k, odp `prefix_of` k → m3 !! k = None) as Hgone.
  { intros k Hk. unfold m3. rewrite rm_dir_lookup. by rewrite decide_True. }
  assert (disk (cleanup (plainp vpp) st4) = delete vpp m3) as Hfin.
  { by apply (cleanup_file vpp d st4). }
  unfold replied, disk_at_reply. rewrite cleanup_sent, Hfin.
  split_and!.
  - done.
  - exists m3. split_and!; [done|done|].
    by rewrite (lstat_IsFile_lookup _ _ _ Hvp').
  - apply lookup_delete_eq.
  - intros k Hk. rewrite lookup_delete_ne; [by apply Hgone|].
    intros <-. by apply (temp_not_below_uploads (dirname w) name [uuid_job w]).
  - rewrite cleanup_trace. exists (trace st2). simpl.
    by rewrite <- !app_assoc.
Qed.

Lemma extraction_failure_rolls_back_witness :
  let req := Request (Str "5") None (Some staged_clip) in
  let st := postExtractKeyframes world_broken req (start image_staged) in
  disk st !! staged_clip = None
  ∧ (∀ k, app ++ ["uploads"; "c4f1a2b3-job"] `prefix_of` k → disk st !! k = None).
Proof.
  intros req st.
  assert (plain_ids world_broken) as Hids by (split; reflexivity).
  assert (upload_staged world_broken image_staged req) as Hup.
  { intros f [= <-]. exists "0b0e7f3c-upload.mp4", "<mp4 bytes>". by vm_compute. }
  assert (valid_interval req) as Hint by (by vm_compute).
  assert (∃ m2, mkdir_p image_staged (join app ["uploads"; "c4f1a2b3-job"])
                = inr m2) as [m2 Hmk].
  { apply succeeded_inr. by vm_compute. }
  destruct (extraction_failure_rolls_back world_broken req image_staged
              (start image_staged) (plainp staged_clip) m2
              "ffmpeg exited with code 1" [(1%nat, "<jpeg 1>")]
              Hids Hup Hint eq_refl Hmk eq_refl)
    as (_ & _ & Hv & Ho & _).
  split; [exact Hv|exact Ho].
Defined.

End EngineFailure.

(** ** POST /extract-keyframes: the success path *)

Module Success.
Import Text Path Disk Frames Server Props Example.
Import PathFacts DiskFacts FramesFacts FrameRoutes Pipeline.

(** *** Frame names *)

Lemma contains_char_app c a b :
  contains_char c (a +:+ b) = contains_char c a || contains_char c b.
Proof.
  induction a as [|d a IH]; simpl; [done|]. by rewrite IH, orb_assoc.
Qed.

Lemma pretty_N_go_no_slash x s :
  contains_char slash s = false → contains_char slash (pretty_N_go x s) = false.
Proof.
  revert s. induction (N.lt_wf_0 x) as [x _ IH]; intros s Hs.
  destruct (decide (x = 0)%N) as [->|Hx]; [done|].
  rewrite pretty_N_go_step by lia. apply IH; [apply N.div_lt; lia|].
  simpl. rewrite Hs. unfold pretty_N_char. by repeat case_match.
Qed.

Lemma pretty_nat_no_slash (n : nat) : contains_char slash (pretty n) = false.
Proof.
  unfold pretty, pretty_nat, pretty, pretty_N.
  case_decide; [done|]. by apply pretty_N_go_no_slash.
Qed.

Lemma frame_name_plain n : plain_seg (frame_name n) = true.
Proof.
  assert (contains_char slash (frame_name n) = false) as H.
  { unfold frame_name. by rewrite !contains_char_app, pretty_nat_no_slash. }
  unfold plain_seg. by rewrite H.
Qed.

Lemma startsWith_app p s : startsWith p (p +:+ s) = true.
Proof.
  unfold startsWith. induction p as [|c p IH]; [by destruct s|].
  simpl. by destruct (ascii_dec c c).
Qed.

Lemma frame_name_isFrame n : isFrame (frame_name n) = true.
Proof. apply startsWith_app. Qed.

Lemma join_frame_name od n :
  join od [frame_name n] = plainp (od ++ [frame_name n]).
Proof. apply join_plain, frame_name_plain. Qed.

Lemma basename_snoc (p : path) s : basename (p ++ [s]) = s.
Proof. unfold basename. by rewrite last_snoc. Qed.

(** *** The reply of a run whose engine ended *)

Section Run.
Variable w : world.
Hypothesis Hids : plain_ids w.

Lemma post_success req m st1 vp m2 frames paths :
  valid_interval req →
  acquire w req (start m) = (st1, Staged vp) →
  mkdir_p (disk st1) (plainp (job_path w)) = inr m2 →
  ffmpeg w m2 vp (interval_of (interval_field req)) = EngineEnd frames →
  collectFrames (job_path w) (listing w (disk (produced w frames m2 st1)) (job_path w)) = Some paths →
  postExtractKeyframes w req (start m)
  = cleanup vp
      (send (Json 200 (JExtracted (uuid_job w) (interval_of (interval_field req))
                         (length (map (frameUrl w (uuid_job w)) paths))
                         (map (frameUrl w (uuid_job w)) paths)))
         (produced w frames m2 st1)).
Proof.
  intros Hint Hacq Hmk Heng Hcol.
  rewrite (post_staged w req _ _ _ Hint Hacq).
  unfold extract_into. rewrite (job_dir w Hids). fold (job_path w).
  rewrite Hmk.
  unfold extractKeyframes. simpl disk. rewrite Heng.
  change (segs (plainp (job_path w))) with (job_path w). fold (produced w frames m2 st1).
  by rewrite (produced_readdir w _ _ _ Hmk), Hcol.
Qed.

(** What the disk holds once such a run is over. *)
Lemma post_success_disk req m st1 vp m2 frames r :
  upload_staged w m req →
  acquire w req (start m) = (st1, Staged vp) →
  mkdir_p (disk st1) (plainp (job_path w)) = inr m2 →
  let st := cleanup vp (send r (produced w frames m2 st1)) in
  disk st !! segs vp = None
  ∧ disk st !! (job_path w) = Some Dir
  ∧ ∀ f, f ∈ frames → ∃ d, disk st !! ((job_path w) ++ [frame_name f.1]) = Some (File d).
Proof.
  intros Hup Hacq Hmk.
  destruct (acquire_staged w req m st1 vp Hids Hup Hacq)
    as ([name Hname] & [d Hd] & _). subst vp. simpl in *.
  set (vpp := dirname w ++ ["temp"; name]) in *.
  assert (lstat (disk (produced w frames m2 st1)) (plainp vpp) = IsFile d) as Hvp.
  { apply (staged_kept m2 _ (dirname w) name [uuid_job w]).
    - intros k Hk. unfold produced. by rewrite write_frames_outside.
    - by eapply mkdir_p_lstat. }
  erewrite cleanup_file; [|exact Hvp]. simpl.
  split_and!.
  - apply lookup_delete_eq.
  - rewrite lookup_delete_ne.
    + unfold produced. rewrite write_frames_other; simpl.
      * apply mkdir_p_target in Hmk. simpl in Hmk. unfold node_at in Hmk.
        unfold job_path in *. by destruct (dirname w).
      * intros s Hs. apply (f_equal length) in Hs.
        rewrite length_app in Hs. simpl in Hs. lia.
    + intros Heq. apply (temp_not_below_uploads (dirname w) name [uuid_job w]).
      fold (job_path w). fold vpp. by rewrite Heq.
  - intros f Hf. rewrite lookup_delete_ne by apply temp_not_uploads.
    by apply write_frames_written.
Qed.

(** What [readdir] finds when the job's directory was new. *)
Lemma unused_lookup (m : fs) p k : unused m p → p `prefix_of` k → m !! k = None.
Proof.
  intros Hu Hk. destruct (m !! k) as [x|] eqn:E; [|done].
  by destruct (Hu k x E).
Qed.

Lemma fresh_listing st1 m2 frames l :
  unused (disk st1) (job_path w) →
  mkdir_p (disk st1) (plainp (job_path w)) = inr m2 →
  NoDup l →
  (∀ s, s ∈ l ↔ s ∈ map (λ f : nat * string, frame_name f.1) frames) →
  entries (disk (produced w frames m2 st1)) (job_path w) ≡ₚ l.
Proof.
  intros Hfresh Hmk Hnd Hl. apply entries_perm; [done|]. intros s.
  unfold produced. rewrite write_frames_children. simpl.
  rewrite (mkdir_p_other _ _ _ (job_path w ++ [s]) Hmk)
    by apply prefix_snoc_not.
  rewrite (unused_lookup _ _ _ Hfresh) by (by exists [s]).
  rewrite Hl. split; [by right|]. intros [[? ?]|?]; done.
Qed.

Lemma downloadVideo_sent url st : sent (downloadVideo w url st).1 = sent st.
Proof.
  unfold downloadVideo.
  destruct (ensure_temp w st) as [e|st0] eqn:E; [done|].
  apply ensure_temp_sent in E.
  destruct (open_w _ _) as [e|m1]; [done|].
  by destruct (axios_get w url).
Qed.

Lemma acquire_sent req st : sent (acquire w req st).1 = sent st.
Proof.
  unfold acquire. destruct (url_given req) as [url|].
  - pose proof (downloadVideo_sent url st) as H.
    by destruct (downloadVideo w url st) as [st' [vp|msg|]].
  - by destruct (file_path req).
Qed.

(** Only one path through the [try] block ends in the success reply: the
    interval it was entered with is within range, went to the engine and
    is the one the reply names. *)
Lemma try_with_success_inv i0 req m vid i n urls :
  replied (settle (try_with w i0 req (start m)))
  = Some (Json 200 (JExtracted vid i n urls)) →
  ∃ st1 vp m2 frames paths,
    1 ≤ i0 ≤ 60
    ∧ acquire w req (start m) = (st1, Staged vp)
    ∧ mkdir_p (disk st1) (plainp (job_path w)) = inr m2
    ∧ ffmpeg w m2 vp i0 = EngineEnd frames
    ∧ collectFrames (job_path w)
        (listing w (disk (produced w frames m2 st1)) (job_path w)) = Some paths
    ∧ vid = uuid_job w ∧ i = i0.
Proof.
  unfold try_with, settle.
  destruct (_ || _) eqn:Hrange; [done|].
  apply orb_false_iff in Hrange as [H1%Z.ltb_ge H2].
  rewrite Z.gtb_ltb in H2. apply Z.ltb_ge in H2.
  pose proof (acquire_sent req (start m)) as Hsent.
  destruct (acquire w req (start m)) as [st1 [vp|msg| |]] eqn:Hacq;
    simpl in Hsent; [|done|by (simpl; unfold replied; rewrite Hsent)|done].
  unfold extract_into. rewrite (job_dir w Hids). fold (job_path w).
  destruct (mkdir_p _ _) as [e|m2] eqn:Hmk.
  { simpl. unfold replied. by rewrite cleanup_sent. }
  unfold extractKeyframes. simpl disk.
  destruct (ffmpeg w m2 vp _) as [frames|msg frames|frames] eqn:Heng.
  - change (segs (plainp (job_path w))) with (job_path w).
    fold (produced w frames m2 st1).
    rewrite (produced_readdir w _ _ _ Hmk).
    destruct (collectFrames _ _) as [paths|] eqn:Hcol; simpl.
    + unfold replied. rewrite cleanup_sent. simpl. intros [= <- <- _ _].
      by exists st1, vp, m2, frames, paths.
    + unfold replied, produced. rewrite write_frames_sent. simpl.
      by rewrite Hsent.
  - simpl. unfold replied. by rewrite cleanup_sent.
  - simpl. unfold replied. rewrite write_frames_sent. simpl. by rewrite Hsent.
Qed.

(** Only one path through the handler ends in the success reply. *)
Lemma post_success_inv req m vid i n urls :
  replied (postExtractKeyframes w req (start m))
  = Some (Json 200 (JExtracted vid i n urls)) →
  ∃ st1 vp m2 frames paths,
    valid_interval req
    ∧ acquire w req (start m) = (st1, Staged vp)
    ∧ mkdir_p (disk st1) (plainp (job_path w)) = inr m2
    ∧ ffmpeg w m2 vp (interval_of (interval_field req)) = EngineEnd frames
    ∧ collectFrames (job_path w)
        (listing w (disk (produced w frames m2 st1)) (job_path w)) = Some paths
    ∧ vid = uuid_job w ∧ i = interval_of (interval_field req).
Proof.
  unfold postExtractKeyframes, try_block.
  destruct (parse_interval (interval_field req)) as [e|i0] eqn:Hparse; [done|].
  pose proof (parse_interval_of _ _ Hparse) as <-.
  intros (st1 & vp & m2 & frames & paths & ? & ? & ? & ? & ? & ? & ?)%try_with_success_inv.
  by exists st1, vp, m2, frames, paths.
Qed.

End Run.

(** C7: when the engine ends after writing no frame or one frame into a new
    output directory, the handler answers 200 with that many frame URLs. *)
Theorem short_video_is_success w req m st1 vp m2 frames :
  plain_ids w → valid_interval req →
  (∀ l, readdir_order w l ≡ₚ l) →
  acquire w req (start m) = (st1, Staged vp) →
  unused (disk st1) (job_path w) →
  mkdir_p (disk st1) (join (dirname w) ["uploads"; uuid_job w]) = inr m2 →
  ffmpeg w m2 vp (interval_of (interval_field req)) = EngineEnd frames →
  (length frames ≤ 1)%nat →
  replied (postExtractKeyframes w req (start m))
  = Some (Json 200
            (JExtracted (uuid_job w) (interval_of (interval_field req))
               (length frames)
               (map (λ f, baseUrl w +:+ "/frames/" +:+ uuid_job w +:+ "/"
                          +:+ frame_name f.1) frames))).
Proof.
  intros Hids Hint Hord Hacq Hfresh Hmk Heng Hlen.
  rewrite (job_dir w Hids) in Hmk. fold (job_path w) in Hmk.
  assert (listing w (disk (produced w frames m2 st1)) (job_path w)
          = map (λ f, frame_name f.1) frames) as Hls.
  { assert (NoDup (map (λ f : nat * string, frame_name f.1) frames)) as Hnd.
    { destruct frames as [|f [|g frames]]; simpl in *;
        [constructor|apply NoDup_singleton|lia]. }
    pose proof (fresh_listing w st1 m2 frames _ Hfresh Hmk Hnd (λ s, reflexivity _))
      as Hp.
    unfold listing. rewrite <- (Hord _) in Hp.
    destruct frames as [|f [|g frames]]; simpl in *; [| |lia].
    - by apply Permutation_nil_r.
    - by apply Permutation_singleton_r. }
  assert (collectFrames (job_path w)
            (listing w (disk (produced w frames m2 st1)) (job_path w))
          = Some (map (λ f, plainp (job_path w ++ [frame_name f.1])) frames))
    as Hcol.
  { rewrite Hls. destruct frames as [|f [|g frames]]; simpl in *; [done| |lia].
    unfold collectFrames. simpl. rewrite frame_name_isFrame. simpl.
    by rewrite join_frame_name. }
  rewrite (post_success w Hids req m st1 vp m2 frames _ Hint Hacq Hmk Heng Hcol).
  unfold replied. rewrite cleanup_sent. simpl.
  rewrite !length_map, map_map. do 3 f_equal.
  apply map_ext. intros f. unfold frameUrl. simpl. by rewrite basename_snoc.
Qed.

Lemma short_video_is_success_witness :
  let req := Request (Str "5") None (Some staged_clip) in
  replied (postExtractKeyframes world_short req (start image_staged))
  = Some (Json 200
            (JExtracted "c4f1a2b3-job" 5 1
               ["http://localhost:3000/frames/c4f1a2b3-job/frame_1.jpg"])).
Proof.
  intros req.
  assert (plain_ids world_short) as Hids by (split; reflexivity).
  assert (valid_interval req) as Hint by (by vm_compute).
  assert (unused image_staged (job_path world_short)) as Hfresh.
  { unfold unused. apply (bool_decide_unpack _). by vm_compute. }
  assert (∃ m2, mkdir_p image_staged (join app ["uploads"; "c4f1a2b3-job"])
                = inr m2) as [m2 Hmk].
  { apply succeeded_inr. by vm_compute. }
  apply (short_video_is_success world_short req image_staged
           (start image_staged) (plainp staged_clip) m2 [(1%nat, "<jpeg 1>")]
           Hids Hint (λ l, reflexivity l) eq_refl Hfresh Hmk eq_refl).
  simpl. lia.
Defined.

(** C8: whenever the handler answers with the success body, the staged
    input video is gone from the staging area, the job's directory is there
    and so is every frame the engine wrote. *)
Theorem success_drops_video_keeps_frames w req m vid i n urls :
  plain_ids w → upload_staged w m req →
  let st := postExtractKeyframes w req (start m) in
  replied st = Some (Json 200 (JExtracted vid i n urls)) →
  ∃ st1 vp m2 frames,
    acquire w req (start m) = (st1, Staged vp)
    ∧ is_Some (disk st1 !! segs vp)
    ∧ mkdir_p (disk st1) (plainp (job_path w)) = inr m2
    ∧ ffmpeg w m2 vp i = EngineEnd frames
    ∧ vid = uuid_job w
    ∧ disk st !! segs vp = None
    ∧ disk st !! (dirname w ++ ["uploads"; vid]) = Some Dir
    ∧ ∀ f, f ∈ frames →
        ∃ d, disk st !! (dirname w ++ ["uploads"; vid; frame_name f.1])
             = Some (File d).
Proof.
  intros Hids Hup st Hr. subst st.
  destruct (post_success_inv w Hids req m vid i n urls Hr)
    as (st1 & vp & m2 & frames & paths & Hint & Hacq & Hmk & Heng & Hcol & -> & ->).
  rewrite (post_success w Hids req m st1 vp m2 frames _ Hint Hacq Hmk Heng Hcol).
  destruct (post_success_disk w Hids req m st1 vp m2 frames
              (Json 200 (JExtracted (uuid_job w) (interval_of (interval_field req))
                 (length (map (frameUrl w (uuid_job w)) paths))
                 (map (frameUrl w (uuid_job w)) paths))) Hup Hacq Hmk)
    as (Hv & Hd & Hf).
  assert (is_Some (disk st1 !! segs vp)) as Hvd.
  { destruct (acquire_staged w req m st1 vp Hids Hup Hacq)
      as ([name ->] & [d Hvd] & _).
    exists (File d). by apply lstat_IsFile_lookup. }
  exists st1, vp, m2, frames. split_and!; [done..| |].
  - exact Hd.
  - intros f Hin. destruct (Hf f Hin) as [d' Hd'].
    exists d'. unfold job_path in Hd'. by rewrite <- app_assoc in Hd'.
Qed.

Lemma success_drops_video_keeps_frames_witness :
  let req := Request (Str "5") None (Some staged_clip) in
  let st := postExtractKeyframes world_ok req (start image_staged) in
  disk st !! (app ++ ["uploads"; "c4f1a2b3-job"]) = Some Dir.
Proof.
  intros req st.
  assert (plain_ids world_ok) as Hids by (split; reflexivity).
  assert (upload_staged world_ok image_staged req) as Hup.
  { intros f [= <-]. exists "0b0e7f3c-upload.mp4", "<mp4 bytes>". by vm_compute. }
  destruct (success_drops_video_keeps_frames world_ok req image_staged
              "c4f1a2b3-job" 5 3%nat
              ["http://localhost:3000/frames/c4f1a2b3-job/frame_1.jpg";
               "http://localhost:3000/frames/c4f1a2b3-job/frame_2.jpg";
               "http://localhost:3000/frames/c4f1a2b3-job/frame_3.jpg"]
              Hids Hup)
    as (st1 & vp & m2 & frames & _ & _ & _ & _ & _ & _ & Hd & _).
  { by vm_compute. }
  exact Hd.
Defined.

End Success.

(** ** The number in an engine frame name *)

Module FrameNumber.
Import Text Path Disk Frames Server Props.
Import PathFacts DiskFacts FramesFacts Success.

Lemma pretty_N_char_digit d :
  (d < 10)%N →
  is_digit (pretty_N_char d) = true
  ∧ dec_val (pretty_N_char d) = Some (Z.of_N d).
Proof.
  intros Hd.
  assert (d = 0 ∨ d = 1 ∨ d = 2 ∨ d = 3 ∨ d = 4 ∨ d = 5 ∨ d = 6 ∨ d = 7
          ∨ d = 8 ∨ d = 9)%N as H by lia.
  repeat destruct H as [->|H]; try subst d; by vm_compute.
Qed.

Lemma pretty_N_go_digits x s :
  all_digits s = true → all_digits (pretty_N_go x s) = true.
Proof.
  revert s. induction (N.lt_wf_0 x) as [x _ IH]; intros s Hs.
  destruct (decide (x = 0)%N) as [->|Hx]; [done|].
  rewrite pretty_N_go_step by lia. apply IH; [apply N.div_lt; lia|].
  simpl. rewrite Hs.
  by destruct (pretty_N_char_digit (x `mod` 10)%N) as [-> _];
    [apply N.mod_lt|].
Qed.

(** Reading back what [pretty] printed. *)
Lemma read_pretty_N_go x s seen :
  read_digits dec_val 10 seen 0 (pretty_N_go x s)
  = read_digits dec_val 10 (seen || (0 <? x)%N) (Z.of_N x) s.
Proof.
  revert s seen. induction (N.lt_wf_0 x) as [x _ IH]; intros s seen.
  destruct (decide (x = 0)%N) as [->|Hx].
  { by rewrite pretty_N_go_0, orb_false_r. }
  rewrite pretty_N_go_step by lia.
  rewrite IH by (apply N.div_lt; lia). simpl.
  destruct (pretty_N_char_digit (x `mod` 10)%N) as [_ ->]; [by apply N.mod_lt|].
  replace (0 <? x)%N with true by (symmetry; apply N.ltb_lt; lia).
  rewrite orb_true_r. f_equal.
  rewrite (N.div_mod x 10) at 3 by done. lia.
Qed.

Lemma pretty_N_go_nonempty x s : s ≠ "" → pretty_N_go x s ≠ "".
Proof.
  revert s. induction (N.lt_wf_0 x) as [x _ IH]; intros s Hs.
  destruct (decide (x = 0)%N) as [->|Hx]; [done|].
  rewrite pretty_N_go_step by lia. by apply IH; [apply N.div_lt; lia|].
Qed.

Lemma pretty_nat_shape (n : nat) :
  ∃ c r, pretty n = String c r ∧ is_digit c = true ∧ all_digits r = true.
Proof.
  unfold pretty, pretty_nat, pretty, pretty_N.
  case_decide as Hn; [by exists "0"%char, ""|].
  pose proof (pretty_N_go_digits (N.of_nat n) "" eq_refl) as Hd.
  destruct (pretty_N_go (N.of_nat n) "") as [|c r] eqn:E.
  - rewrite pretty_N_go_step in E by lia.
    by apply pretty_N_go_nonempty in E.
  - simpl in Hd. apply andb_true_iff in Hd as [? ?]. by exists c, r.
Qed.

Lemma read_pretty (n : nat) :
  read_digits dec_val 10 false 0 (pretty n) = Some (Z.of_nat n).
Proof.
  unfold pretty, pretty_nat, pretty, pretty_N.
  case_decide as Hn.
  - replace n with 0%nat by lia. done.
  - rewrite read_pretty_N_go.
    replace (0 <? N.of_nat n)%N with true by (symmetry; apply N.ltb_lt; lia).
    simpl. f_equal. lia.
Qed.

Lemma parseInt_pretty (n : nat) : parseInt (pretty n) = Some (Z.of_nat n).
Proof.
  destruct (pretty_nat_shape n) as (c & r & E & Hc & Hr).
  unfold parseInt. rewrite E, (skip_spaces_digit _ _ Hc).
  unfold read_sign.
  rewrite (digit_not_char c "-" Hc), (digit_not_char c "+" Hc) by done.
  assert (read_radix (String c r) = (dec_val, 10, String c r)) as ->.
  { unfold read_radix. destruct r as [|x t]; [done|].
    simpl in Hr. apply andb_true_iff in Hr as [Hx _].
    by rewrite (digit_not_char x "x" Hx), (digit_not_char x "X" Hx), andb_false_r. }
  rewrite <- E, (read_pretty n). f_equal. lia.
Qed.

Lemma take_digits_app s : all_digits s = true → take_digits (s +:+ ".jpg") = s.
Proof.
  induction s as [|c r IH]; simpl; [done|].
  intros [-> Hr]%andb_true_iff. by rewrite (IH Hr).
Qed.

Lemma match_digits_frame_name n : match_digits (frame_name n) = Some (pretty n).
Proof.
  destruct (pretty_nat_shape n) as (c & r & E & Hc & Hr).
  unfold frame_name. rewrite E. simpl. rewrite Hc. f_equal. f_equal.
  by apply take_digits_app.
Qed.

(** The comparator reads from [frame_<n>.jpg] the number [n]. *)
Lemma frame_name_number n :
  throws (frame_name n) = false ∧ indexOf (frame_name n) = Z.of_nat n.
Proof.
  unfold throws, indexOf, numOf. rewrite match_digits_frame_name. simpl.
  by rewrite parseInt_pretty.
Qed.

End FrameNumber.

(** ** Order of the returned frames *)

Module FrameOrder.
Import Text Path Disk Frames Server Props Example.
Import PathFacts DiskFacts FramesFacts Pipeline Success FrameNumber.

Lemma startsWith_iff p s : startsWith p s = true ↔ ∃ rest, s = p +:+ rest.
Proof.
  unfold startsWith. revert s. induction p as [|c p IH]; intros s.
  - split; [intros _; by exists s|by destruct s].
  - destruct s as [|d s]; simpl; [split; [done|by intros [rest ?]]|].
    destruct (ascii_dec c d) as [->|Hne].
    + rewrite IH. split; intros [rest H]; exists rest;
        [by rewrite H|by injection H].
    + split; [done|]. intros [rest H]. by injection H.
Qed.

Lemma NoDup_List_filter {A} (f : A → bool) (l : list A) :
  NoDup l → NoDup (List.filter f l).
Proof.
  induction 1 as [|x l Hx Hl IH]; simpl; [constructor|].
  destruct (f x); [|done]. constructor; [|done].
  rewrite list_elem_of_In, filter_In, <- list_elem_of_In. tauto.
Qed.

(** C6: when the engine has ended in an output directory that is there,
    the extractor resolves with exactly the entries of the directory whose
    name starts with [frame_], each once, in ascending order of the number
    in their name, each joined to the directory, whatever order the
    directory is listed in. The three
    files of the example come back as frame 1, 2, 10 from each of their six
    listings. Every name [frame_<n>.jpg] starts with [frame_] and counts
    as [n]. *)
Theorem frames_in_numeric_order :
  (∀ w vp interval od st frames,
     (∀ l, readdir_order w l ≡ₚ l) →
     lstat (disk st) od = IsDir →
     ffmpeg w (disk st) vp interval = EngineEnd frames →
     let st1 := write_frames (segs od) frames st in
     let files := entries (disk st1) (segs od) in
     (∀ f, f ∈ files → (∃ rest, f = "frame_" +:+ rest) →
           throws f = false ∧ indexOf f < 2 ^ 53) →
     ∃ names,
       extractKeyframes w vp interval od st
       = (st1, Resolved (map (λ f, join (segs od) [f]) names))
       ∧ (∀ f, f ∈ names ↔ f ∈ files ∧ ∃ rest, f = "frame_" +:+ rest)
       ∧ NoDup names
       ∧ StronglySorted by_index names)
  ∧ (∀ (dir : path) files,
       files ≡ₚ ["frame_2.jpg"; "frame_10.jpg"; "frame_1.jpg"] →
       collectFrames dir files
       = Some (map (λ f, plainp (dir ++ [f]))
                 ["frame_1.jpg"; "frame_2.jpg"; "frame_10.jpg"]))
  ∧ (∀ n, (∃ rest, frame_name n = "frame_" +:+ rest)
          ∧ throws (frame_name n) = false
          ∧ indexOf (frame_name n) = Z.of_nat n).
Proof.
  split_and!.
  - intros w vp interval od st frames Hord Hdir Heng st1 files Hnum.
    set (listed := listing w (disk st1) (segs od)).
    assert (readdir w (disk st1) od = inr listed) as Hrd.
    { apply readdir_dir. unfold lstat in *. unfold st1.
      by rewrite write_frames_resolve. }
    assert (listed ≡ₚ files) as Hl by apply Hord.
    destruct (collectFrames_sorted (segs od) listed) as (names & E & Hp & Hs).
    { intros f Hf Hfr. rewrite Hl in Hf.
      by apply Hnum; [|apply startsWith_iff]. }
    exists names. split_and!; [| | |done].
    + unfold extractKeyframes. rewrite Heng. fold st1.
      by rewrite Hrd, E.
    + intros f. rewrite Hp, list_elem_of_In, filter_In, <- list_elem_of_In, Hl.
      unfold isFrame. by rewrite startsWith_iff.
    + rewrite Hp. apply NoDup_List_filter. rewrite Hl. apply NoDup_entries.
  - intros dir files Hp. symmetry in Hp. apply permutations_Permutation in Hp.
    vm_compute permutations in Hp.
    repeat (apply elem_of_cons in Hp as [->|Hp]; [reflexivity|]).
    by apply elem_of_nil in Hp.
  - intros n. destruct (frame_name_number n) as [? ?].
    split_and!; [|done..]. apply startsWith_iff, frame_name_isFrame.
Qed.

Lemma frames_in_numeric_order_witness :
  ∃ names,
    extractKeyframes world_ok (plainp staged_clip) 5
      (plainp (app ++ ["uploads"; "c4f1a2b3-job"]))
      (start (<[app ++ ["uploads"; "c4f1a2b3-job"] := Dir]> image_staged))
    = (write_frames (app ++ ["uploads"; "c4f1a2b3-job"]) three_frames
         (start (<[app ++ ["uploads"; "c4f1a2b3-job"] := Dir]> image_staged)),
       Resolved (map (λ f, join (app ++ ["uploads"; "c4f1a2b3-job"]) [f]) names))
    ∧ StronglySorted by_index names
    ∧ collectFrames app ["frame_10.jpg"; "frame_1.jpg"; "frame_2.jpg"]
      = Some (map (λ f, plainp (app ++ [f]))
                ["frame_1.jpg"; "frame_2.jpg"; "frame_10.jpg"]).
Proof.
  destruct frames_in_numeric_order as (Hgen & Hex & _).
  destruct (Hgen world_ok (plainp staged_clip) 5
              (plainp (app ++ ["uploads"; "c4f1a2b3-job"]))
              (start (<[app ++ ["uploads"; "c4f1a2b3-job"] := Dir]> image_staged))
              three_frames (λ l, reflexivity l))
    as (names & E & _ & _ & Hs).
  { by vm_compute. }
  { reflexivity. }
  { intros f Hf _. revert f Hf. apply Forall_forall.
    apply (bool_decide_unpack _). by vm_compute. }
  exists names. split_and!; [exact E|exact Hs|].
  apply Hex. apply (bool_decide_unpack _). by vm_compute.
Defined.

End FrameOrder.

(** ** POST /extract-keyframes: validation and acquisition failures *)

Module Rejections.
Import Text Path Disk Frames Server Props Example.
Import PathFacts DiskFacts FramesFacts Pipeline Success.

(** C4, the run that refutes it: the interval field is there but is no
    number; the handler takes 5 instead, makes the output directory and
    answers 200. *)
Lemma malformed_interval_is_defaulted :
  let req := Request (Str "abc") None (Some staged_clip) in
  let st := postExtractKeyframes world_short req (start image_staged) in
  parseInt "abc" = None
  ∧ replied st
    = Some (Json 200
              (JExtracted "c4f1a2b3-job" 5 1
                 ["http://localhost:3000/frames/c4f1a2b3-job/frame_1.jpg"]))
  ∧ image_staged !! (app ++ ["uploads"; "c4f1a2b3-job"]) = None
  ∧ disk st !! (app ++ ["uploads"; "c4f1a2b3-job"]) = Some Dir.
Proof. split_and!; by vm_compute. Qed.

(** With an interval within 1..60 the handler does not answer that the
    interval is out of range, whatever else happens. *)
Lemma in_range_is_not_refused w i req m :
  1 ≤ i ≤ 60 →
  replied (settle (try_with w i req (start m))) ≠ Some interval_error.
Proof.
  intros Hi. unfold try_with, settle. rewrite (in_range _ Hi).
  pose proof (acquire_sent w req (start m)) as Hsent.
  destruct (acquire w req (start m)) as [st1 [vp|msg| |]] eqn:Hacq;
    simpl in Hsent.
  - unfold extract_into.
    destruct (mkdir_p _ _) as [e|m2] eqn:Hmk.
    { simpl. unfold replied. by rewrite cleanup_sent. }
    unfold extractKeyframes. simpl disk.
    destruct (ffmpeg w m2 vp _) as [frames|msg frames|frames] eqn:Heng.
    + destruct (readdir _ _ _) as [e|files];
        [simpl; unfold replied; rewrite write_frames_sent; simpl;
         by rewrite Hsent|].
      destruct (collectFrames _ _) as [paths|] eqn:Hcol; simpl.
      * unfold replied. by rewrite cleanup_sent.
      * unfold replied. rewrite write_frames_sent. simpl. by rewrite Hsent.
    + simpl. unfold replied. by rewrite cleanup_sent.
    + simpl. unfold replied. rewrite write_frames_sent. simpl. by rewrite Hsent.
  - done.
  - simpl. unfold replied. by rewrite Hsent.
  - done.
Qed.

(** C4 as the code has it, for a field that is missing or that
    [parseInt] can read as a string. A non-zero number outside 1..60 is
    answered 400 and the handler touches nothing on disk. When the field is
    missing, or [parseInt] finds no number in it, the handler goes on as
    line 136 does with [interval = 5]; a number within 1..60 is taken as it
    is. Going on with an interval within 1..60 never ends in the reply
    that the interval is out of range, and the interval the handler goes
    on with is the one it hands to ffmpeg and names in the success
    reply. *)
Theorem interval_validation w req st :
  (∀ s n, interval_field req = Str s → parseInt s = Some n → n ≠ 0 →
          n < 1 ∨ 60 < n →
          let st' := postExtractKeyframes w req st in
          st' = send interval_error st
          ∧ disk st' = disk st ∧ trace st' = trace st ++ [EvSend interval_error])
  ∧ (interval_field req = Absent →
     postExtractKeyframes w req st = settle (try_with w 5 req st))
  ∧ (∀ s, interval_field req = Str s → parseInt s = None →
          postExtractKeyframes w req st = settle (try_with w 5 req st))
  ∧ (∀ s n, interval_field req = Str s → parseInt s = Some n → 1 ≤ n ≤ 60 →
            postExtractKeyframes w req st = settle (try_with w n req st))
  ∧ (plain_ids w →
     ∀ i m vid i' n urls,
       replied (settle (try_with w i req (start m)))
       = Some (Json 200 (JExtracted vid i' n urls)) →
       i' = i ∧ 1 ≤ i ≤ 60
       ∧ ∃ st1 vp m2 frames,
           acquire w req (start m) = (st1, Staged vp)
           ∧ mkdir_p (disk st1) (plainp (job_path w)) = inr m2
           ∧ ffmpeg w m2 vp i = EngineEnd frames)
  ∧ (∀ i m, 1 ≤ i ≤ 60 →
       replied (settle (try_with w i req (start m))) ≠ Some interval_error).
Proof.
  unfold postExtractKeyframes, try_block.
  split; [|split; [|split; [|split; [|split]]]];
    [| | | | |intros i m Hi; by apply in_range_is_not_refused].
  - intros s n -> Hn Hn0 Hout. simpl. rewrite Hn.
    assert (match n with 0 => 5 | _ => n end = n) as -> by (by destruct n).
    unfold try_with. rewrite out_of_range by lia. done.
  - by intros ->.
  - intros s -> Hn. simpl. by rewrite Hn.
  - intros s n -> Hn Hr. simpl. rewrite Hn.
    by assert (match n with 0 => 5 | _ => n end = n) as -> by (destruct n; [lia|done..]).
  - intros Hids i m vid i' n urls
      (st1 & vp & m2 & frames & paths & ? & ? & ? & ? & _ & _ & ?)%try_with_success_inv;
      [|done].
    split; [done|]. split; [done|]. by exists st1, vp, m2, frames.
Qed.

Lemma interval_validation_witness :
  let req := Request (Str "61") None (Some staged_clip) in
  let st' := postExtractKeyframes world_ok req (start image_staged) in
  let padded := String "194" (String "160" "100") in
  disk st' = image_staged ∧ trace st' = [EvSend interval_error]
  ∧ postExtractKeyframes world_ok (Request (Str padded) None (Some staged_clip))
      (start image_staged)
    = send interval_error (start image_staged).
Proof.
  intros req st' padded.
  destruct (interval_validation world_ok req (start image_staged)) as (H & _).
  destruct (H "61" 61) as (_ & Hd & Ht);
    [reflexivity|reflexivity|lia|lia|].
  split_and!; [exact Hd|exact Ht|].
  destruct (interval_validation world_ok
              (Request (Str padded) None (Some staged_clip))
              (start image_staged)) as (H' & _).
  destruct (H' padded 100) as (He & _); [reflexivity|reflexivity|lia|lia|].
  exact He.
Defined.




(** C3 on two runs: an upload with an interval out of range, and a download
    that times out. Both are answered 400, and in both the file created in
    the staging directory is still there when the request is over. *)
Theorem staged_file_left_behind :
  (let raw := RawRequest (Str "100") None (Some clip) in
   let st := post_route world_ok raw (start image) in
   image !! staged_clip = None
   ∧ replied st = Some interval_error
   ∧ disk st !! staged_clip = Some (File "<mp4 bytes>"))
  ∧ (let raw := RawRequest (Str "5") (Some "http://example.com/clip.mp4") None in
     let st := post_route world_ok raw (start image) in
     let partial := app ++ ["temp"; "6a1d2c9e-download.mp4"] in
     image !! partial = None
     ∧ replied st = Some (download_error "timeout of 60000ms exceeded")
     ∧ disk st !! partial = Some (File "")).
Proof. split; split_and!; by vm_compute. Qed.

End Rejections.

(** ** From an ended engine to the reply *)

Module EndToEnd.
Import Text Path Disk Frames Server Props.
Import PathFacts DiskFacts FramesFacts Pipeline Success FrameNumber.

Lemma filter_all {A} (f : A → bool) (l : list A) :
  (∀ x, x ∈ l → f x = true) → List.filter f l = l.
Proof.
  induction l as [|x l IH]; simpl; [done|]. intros H.
  rewrite (H x) by apply list_elem_of_here.
  f_equal. apply IH. intros y Hy. apply H. by apply list_elem_of_further.
Qed.

(** Whatever the engine wrote into a new output directory before it ended,
    the handler answers 200 with one URL per frame file, in ascending order
    of the frame number. *)
Lemma engine_end_is_success w req m st1 vp m2 frames :
  plain_ids w → valid_interval req →
  (∀ l, readdir_order w l ≡ₚ l) →
  acquire w req (start m) = (st1, Staged vp) →
  unused (disk st1) (job_path w) →
  mkdir_p (disk st1) (plainp (job_path w)) = inr m2 →
  ffmpeg w m2 vp (interval_of (interval_field req)) = EngineEnd frames →
  ∃ names,
    replied (postExtractKeyframes w req (start m))
    = Some (Json 200
              (JExtracted (uuid_job w) (interval_of (interval_field req))
                 (length names)
                 (map (λ f, baseUrl w +:+ "/frames/" +:+ uuid_job w +:+ "/" +:+ f)
                    names)))
    ∧ names ≡ₚ remove_dups (map (λ f, frame_name f.1) frames)
    ∧ StronglySorted by_index names.
Proof.
  intros Hids Hint Hord Hacq Hfresh Hmk Heng.
  set (all := remove_dups (map (λ f : nat * string, frame_name f.1) frames)).
  set (files := listing w (disk (produced w frames m2 st1)) (job_path w)).
  assert (files ≡ₚ all) as Hfiles.
  { unfold files, listing. rewrite Hord.
    apply (fresh_listing w st1 m2 frames all Hfresh Hmk).
    - apply NoDup_remove_dups.
    - intros s. apply elem_of_remove_dups. }
  assert (∀ f, f ∈ files → ∃ n, f = frame_name n) as Hnames.
  { intros f Hf. rewrite Hfiles in Hf. unfold all in Hf.
    apply (proj1 (elem_of_remove_dups _ _)) in Hf.
    apply list_elem_of_fmap in Hf as ([n d] & -> & _). by exists n. }
  destruct (collectFrames_sorted (job_path w) files) as (names & Hcol & Hp & Hs).
  { intros f [n ->]%Hnames _. apply frame_name_number. }
  rewrite filter_all in Hp
    by (intros f [n ->]%Hnames; apply frame_name_isFrame).
  exists names. split_and!; [|by rewrite Hp|done].
  rewrite (post_success w Hids req m st1 vp m2 frames _ Hint Hacq Hmk Heng Hcol).
  unfold replied. rewrite cleanup_sent. simpl.
  rewrite !length_map, map_map. do 3 f_equal.
  apply map_ext_in. intros f Hf%list_elem_of_In.
  rewrite Hp in Hf. destruct (Hnames f Hf) as [n ->].
  unfold frameUrl. rewrite join_frame_name. simpl. by rewrite basename_snoc.
Qed.

End EndToEnd.

(* ===================================================================== *)
(** * Further properties of the server *)
(* ===================================================================== *)

(** ** Staging: the upload middleware, [downloadVideo], [cleanup] *)

Module Staging.
Import Text Path Disk Frames Server Props Example Places.
Import PathFacts DiskFacts Pipeline.

Lemma temp_path_join w : tempDir w = plainp (temp_path w).
Proof. done. Qed.

Lemma join_temp_name w name :
  plain_seg name = true →
  join (segs (tempDir w)) [name] = plainp (temp_path w ++ [name]).
Proof. intros H. by rewrite (join_plain _ _ H). Qed.

Lemma open_w_new (m : fs) (p : path) s :
  resolve m [] p = IsDir → m !! (p ++ [s]) = None →
  open_w m (p ++ [s]) = inr (<[p ++ [s] := File ""]> m).
Proof.
  intros Hp Hs. unfold open_w. rewrite removelast_last, Hp.
  unfold node_at. destruct (p ++ [s]) eqn:E; [by destruct p|].
  by rewrite Hs.
Qed.

Lemma snoc_not_prefix (p : path) s : ¬ p ++ [s] `prefix_of` p.
Proof. apply prefix_snoc_not. Qed.

Lemma ensure_temp_other w st st1 k :
  ensure_temp w st = inr st1 → ¬ k `prefix_of` temp_path w →
  disk st1 !! k = disk st !! k.
Proof.
  unfold ensure_temp. destruct (existsSync _ _); [by intros [= <-]|].
  destruct (mkdir_p _ _) as [e|m1] eqn:E; [done|]. intros [= <-] Hk.
  simpl. by apply (mkdir_p_other _ _ _ k E).
Qed.




(** X3. [downloadVideo] resolves only when the request delivered its body;
    the resolved path is [temp/<uuid>.mp4] whatever the URL, that file
    holds exactly the body, nothing has been sent, and outside [temp] and
    the directories leading to it the disk is as before. *)
Theorem download_resolves_with_body w url st st1 vp :
  plain_seg (uuid_download w +:+ ".mp4") = true →
  downloadVideo w url st = (st1, Resolved vp) →
  ∃ data,
    axios_get w url = DlDone data
    ∧ vp = plainp (download_path w)
    ∧ disk st1 !! download_path w = Some (File data)
    ∧ sent st1 = sent st
    ∧ ∀ k, k ≠ download_path w → ¬ k `prefix_of` temp_path w →
           disk st1 !! k = disk st !! k.
Proof.
  intros Hname. unfold downloadVideo.
  rewrite (join_temp_name w _ Hname). simpl segs. fold (download_path w).
  destruct (ensure_temp w st) as [e|st0] eqn:E; [done|].
  destruct (open_w (disk st0) (download_path w)) as [e|m1] eqn:Ho; [done|].
  destruct (axios_get w url) as [msg|data|msg partial|partial];
    intros H; simplify_eq/=.
  exists data. split_and!; [done|done|apply lookup_insert_eq| |].
  - by apply ensure_temp_sent in E.
  - intros k Hk Hpre. rewrite lookup_insert_ne by done.
    unfold download_path in Ho. apply open_w_inr in Ho as [_ ->].
    rewrite lookup_insert_ne by done.
    by apply (ensure_temp_other w st st0 k E).
Qed.

Lemma download_resolves_with_body_witness :
  ∃ st1,
    downloadVideo (world_online (EngineEnd three_frames))
      "http://example.com/clip.webm" (start image)
    = (st1, Resolved (plainp (app ++ ["temp"; "6a1d2c9e-download.mp4"])))
    ∧ disk st1 !! (app ++ ["temp"; "6a1d2c9e-download.mp4"])
      = Some (File "<downloaded mp4>").
Proof.
  destruct (downloadVideo (world_online (EngineEnd three_frames))
              "http://example.com/clip.webm" (start image))
    as [st1 [vp|msg|]] eqn:E;
    [|exfalso; apply (f_equal snd) in E; vm_compute in E; discriminate E..].
  destruct (download_resolves_with_body
              (world_online (EngineEnd three_frames)) _ _ _ _ eq_refl E)
    as (data & Hd & -> & Hf & _).
  injection Hd as <-. exists st1. split; [reflexivity|exact Hf].
Defined.

(** X4. [cleanup] removes at most the one path it is given, and only if
    that is a regular file: afterwards the path does not name a regular
    file, a directory there is left alone, every other path is as before,
    and no reply is sent. *)
Theorem cleanup_removes_only_that_file p st :
  (∀ k, k ≠ segs p → disk (cleanup p st) !! k = disk st !! k)
  ∧ (∀ d, lstat (disk (cleanup p st)) p ≠ IsFile d)
  ∧ (lstat (disk st) p = IsDir → disk (cleanup p st) = disk st)
  ∧ sent (cleanup p st) = sent st.
Proof.
  unfold cleanup, unlink. split_and!.
  - intros k Hk. destruct (lstat (disk st) p); simpl; [done..| |done].
    by apply lookup_delete_ne.
  - intros d. destruct (lstat (disk st) p) eqn:E; simpl; rewrite ?E; try done.
    intros H%lstat_IsFile. by rewrite lookup_delete_eq in H.
  - by intros ->.
  - by destruct (lstat (disk st) p).
Qed.

Lemma cleanup_removes_only_that_file_witness :
  disk (cleanup (plainp app) (start image)) = image.
Proof.
  destruct (cleanup_removes_only_that_file (plainp app) (start image))
    as (_ & _ & H & _).
  apply H. reflexivity.
Defined.

End Staging.

(** ** POST /extract-keyframes: every way out *)

Module Replies.
Import Text Path Disk Frames Server Props Example Places.
Import PathFacts DiskFacts FramesFacts Pipeline Success Staging.

Lemma range_check_valid req :
  (interval_of (interval_field req) <? 1)
  || (interval_of (interval_field req) >? 60) = false →
  valid_interval req.
Proof.
  intros [H1%Z.ltb_ge H2]%orb_false_iff. rewrite Z.gtb_ltb in H2.
  apply Z.ltb_ge in H2. by split.
Qed.

(** X5. Whatever the request, a reply of the handler is one of five: the
    three 400s (interval out of range, download failed, no source), the 500
    of a failed extraction, or the 200 whose body names the job's
    identifier, an interval within 1..60 and as many URLs as its
    [frameCount] says. *)
Theorem post_reply_forms w req m r :
  replied (postExtractKeyframes w req (start m)) = Some r →
  r = interval_error
  ∨ r = no_source_error
  ∨ (∃ msg, r = download_error msg)
  ∨ (∃ msg, r = extract_error msg)
  ∨ (∃ urls, valid_interval req
             ∧ r = Json 200 (JExtracted (uuid_job w)
                               (interval_of (interval_field req))
                               (length urls) urls)).
Proof.
  unfold postExtractKeyframes, try_block.
  destruct (parse_interval (interval_field req)) as [e|i0] eqn:Hparse.
  { simpl. intros [= <-]. do 3 right. left. by eexists. }
  pose proof (parse_interval_of _ _ Hparse) as <-.
  unfold try_with, settle.
  destruct (_ || _) eqn:Hrange.
  { simpl. intros [= <-]. by left. }
  apply range_check_valid in Hrange.
  pose proof (acquire_sent w req (start m)) as Hsent.
  destruct (acquire w req (start m)) as [st1 [vp|msg| |]] eqn:Hacq;
    simpl in Hsent.
  - unfold extract_into.
    destruct (mkdir_p _ _) as [e|m2] eqn:Hmk.
    { simpl. unfold replied. rewrite cleanup_sent. simpl. intros [= <-].
      do 3 right. left. by eexists. }
    unfold extractKeyframes. simpl disk.
    destruct (ffmpeg w m2 vp _) as [frames|msg frames|frames] eqn:Heng.
    + destruct (readdir _ _ _) as [e|files];
        [simpl; unfold replied; rewrite write_frames_sent; simpl;
         by rewrite Hsent|].
      destruct (collectFrames _ _) as [paths|] eqn:Hcol; simpl.
      * unfold replied. rewrite cleanup_sent. simpl. intros [= <-].
        do 4 right. eexists. split; [done|]. reflexivity.
      * unfold replied. rewrite write_frames_sent. simpl. by rewrite Hsent.
    + simpl. unfold replied. rewrite cleanup_sent. simpl. intros [= <-].
      do 3 right. left. by eexists.
    + simpl. unfold replied. rewrite write_frames_sent. simpl. by rewrite Hsent.
  - simpl. intros [= <-]. do 2 right. left. by eexists.
  - simpl. unfold replied. by rewrite Hsent.
  - simpl. intros [= <-]. right. by left.
Qed.

Lemma post_reply_forms_witness :
  ∃ urls,
    Json 200 (JExtracted "c4f1a2b3-job" 5 1
                ["http://localhost:3000/frames/c4f1a2b3-job/frame_1.jpg"])
    = Json 200 (JExtracted "c4f1a2b3-job" 5 (length urls) urls).
Proof.
  destruct (post_reply_forms world_short
              (Request (Str "5") None (Some staged_clip)) image_staged
              (Json 200 (JExtracted "c4f1a2b3-job" 5 1
                 ["http://localhost:3000/frames/c4f1a2b3-job/frame_1.jpg"])))
    as [H|[H|[[? H]|[[? H]|(urls & _ & H)]]]];
    [by vm_compute|discriminate H..|].
  exists urls. exact H.
Defined.

(** X6. A request that names no source, neither a non-empty [videoUrl] nor
    an uploaded file, is answered at once and without any file system call:
    500 when the interval field cannot be read, for then line 134 throws
    before the source is looked at; otherwise 400, with the interval
    message when the interval is out of range and with the missing-source
    message when it is not. *)
Theorem no_source_is_rejected w req st :
  url_given req = None → file_path req = None →
  let st' := postExtractKeyframes w req st in
  (∀ msg, interval_field req = Unreadable msg →
          st' = send (extract_error msg) st)
  ∧ (valid_interval req → st' = send no_source_error st)
  ∧ (∀ i, parse_interval (interval_field req) = inr i → ¬ 1 ≤ i ≤ 60 →
          st' = send interval_error st)
  ∧ disk st' = disk st
  ∧ ∃ status body,
      sends (trace st') = sends (trace st) ++ [Json status body]
      ∧ (status = 400%nat
         ∨ status = 500%nat ∧ ∃ msg, interval_field req = Unreadable msg).
Proof.
  intros Hurl Hfile. simpl.
  assert (∀ msg, interval_field req = Unreadable msg →
          postExtractKeyframes w req st = send (extract_error msg) st) as Hu.
  { intros msg E. unfold postExtractKeyframes, try_block. by rewrite E. }
  assert (valid_interval req →
          postExtractKeyframes w req st = send no_source_error st) as Hv.
  { intros Hint. unfold postExtractKeyframes.
    rewrite (try_block_valid _ _ _ Hint). unfold try_with.
    rewrite (in_range _ Hint). unfold acquire.
    by rewrite Hurl, Hfile. }
  assert (∀ i, parse_interval (interval_field req) = inr i → ¬ 1 ≤ i ≤ 60 →
          postExtractKeyframes w req st = send interval_error st) as Hn.
  { intros i E Hout. unfold postExtractKeyframes, try_block, try_with.
    by rewrite E, (out_of_range _ Hout). }
  split_and!; [done..| |].
  - destruct (parse_interval (interval_field req)) as [msg|i] eqn:E.
    + destruct (interval_field req) eqn:Ef; simplify_eq/=. by rewrite (Hu _ eq_refl).
    + destruct (decide (1 ≤ i ≤ 60)) as [H|H]; [|by rewrite (Hn i)].
      rewrite Hv; [done|]. unfold valid_interval.
      by rewrite (parse_interval_of _ _ E).
  - unfold sends.
    destruct (parse_interval (interval_field req)) as [msg|i] eqn:E.
    + destruct (interval_field req) eqn:Ef; simplify_eq/=.
      rewrite (Hu _ eq_refl). simpl. rewrite omap_app.
      eexists _, _. split; [done|]. right. split; [done|by eexists].
    + destruct (decide (1 ≤ i ≤ 60)) as [H|H].
      * rewrite Hv by (unfold valid_interval; by rewrite (parse_interval_of _ _ E)).
        simpl. rewrite omap_app. eexists _, _. split; [done|by left].
      * rewrite (Hn i) by done.
        simpl. rewrite omap_app. eexists _, _. split; [done|by left].
Qed.

Lemma no_source_is_rejected_witness :
  postExtractKeyframes world_ok (Request (Str "5") (Some "") None) (start image)
  = send no_source_error (start image)
  ∧ postExtractKeyframes world_ok
      (Request (Unreadable "Cannot convert object to primitive value") None None)
      (start image)
    = send (extract_error "Cannot convert object to primitive value")
        (start image).
Proof.
  split.
  - destruct (no_source_is_rejected world_ok (Request (Str "5") (Some "") None)
                (start image) eq_refl eq_refl) as (_ & H & _).
    apply H. by vm_compute.
  - destruct (no_source_is_rejected world_ok
                (Request (Unreadable "Cannot convert object to primitive value")
                   None None)
                (start image) eq_refl eq_refl) as (H & _).
    by apply H.
Defined.

Lemma rm_rf_outside m p r k :
  rm_rf m p = inr r → ¬ segs p `prefix_of` k → r !! k = m !! k.
Proof.
  unfold rm_rf. destruct (lstat m p) eqn:E; intros [= <-] Hk; [done|..].
  - apply lookup_delete_ne. intros <-. by apply Hk.
  - rewrite rm_dir_lookup. by case_decide.
Qed.

(** X7. When the output directory cannot be made, the reply is the 500 of a
    failed extraction with the system error as details, the staged video is
    removed all the same, and apart from it nothing outside the job's
    directory changes. *)
Theorem mkdir_failure_is_500 w req m st1 vp e :
  plain_ids w → upload_staged w m req → valid_interval req →
  acquire w req (start m) = (st1, Staged vp) →
  mkdir_p (disk st1) (join (dirname w) ["uploads"; uuid_job w]) = inl e →
  let st := postExtractKeyframes w req (start m) in
  replied st = Some (extract_error e)
  ∧ disk st !! segs vp = None
  ∧ ∀ k, k ≠ segs vp → ¬ job_path w `prefix_of` k →
         disk st !! k = disk st1 !! k.
Proof.
  intros Hids Hup Hint Hacq Hmk st. subst st.
  destruct (acquire_staged w req m st1 vp Hids Hup Hacq)
    as ([name ->] & [d Hd] & _).
  rewrite (post_staged w req _ _ _ Hint Hacq).
  unfold extract_into. rewrite Hmk. simpl.
  rewrite (job_dir w Hids). fold (job_path w).
  set (vpp := dirname w ++ ["temp"; name]) in *.
  unfold catch_block. simpl disk.
  assert (∃ m1, (∀ k, ¬ job_path w `prefix_of` k → m1 !! k = disk st1 !! k)
    ∧ match rm_rf (disk st1) (plainp (job_path w)) with
      | inl _ => note (EvRm (plainp (job_path w)))
                   (note (EvMkdir (plainp (job_path w))) st1)
      | inr m0 => set_disk m0 (EvRm (plainp (job_path w)))
                    (note (EvMkdir (plainp (job_path w))) st1)
      end
      = State m1 (trace st1 ++ [EvMkdir (plainp (job_path w))]
                    ++ [EvRm (plainp (job_path w))]) (sent st1))
    as (m1 & Hm1 & ->).
  { destruct (rm_rf _ _) as [e'|m0] eqn:Hrm.
    - exists (disk st1). split; [done|].
      unfold note, set_disk. simpl. by rewrite <- app_assoc.
    - exists m0. split; [intros k Hk; by apply (rm_rf_outside _ _ _ _ Hrm)|].
      unfold note, set_disk. simpl. by rewrite <- app_assoc. }
  assert (lstat m1 (plainp vpp) = IsFile d) as Hvp.
  { exact (staged_kept (disk st1) m1 (dirname w) name [uuid_job w] d Hm1 Hd). }
  unfold replied. rewrite cleanup_sent.
  erewrite cleanup_file; [|exact Hvp]. simpl.
  split_and!; [done|apply lookup_delete_eq|].
  intros k Hk Hout. rewrite lookup_delete_ne by done. by apply Hm1.
Qed.

Lemma mkdir_failure_is_500_witness :
  let req := Request (Str "5") None (Some staged_clip) in
  let st := postExtractKeyframes world_ok req (start image_blocked) in
  replied st = Some (extract_error "ENOTDIR") ∧ disk st !! staged_clip = None.
Proof.
  intros req st.
  assert (plain_ids world_ok) as Hids by (split; reflexivity).
  assert (upload_staged world_ok image_blocked req) as Hup.
  { intros f [= <-]. exists "0b0e7f3c-upload.mp4", "<mp4 bytes>". by vm_compute. }
  assert (valid_interval req) as Hint by (by vm_compute).
  destruct (mkdir_failure_is_500 world_ok req image_blocked
              (start image_blocked) (plainp staged_clip) "ENOTDIR"
              Hids Hup Hint eq_refl) as (Hr & Hv & _).
  { by vm_compute. }
  split; [exact Hr|exact Hv].
Defined.

End Replies.

(** ** POST /extract-keyframes: one reply, and when there is none *)

Module Answering.
Import Text Path Disk Frames Server Props Example Places.
Import PathFacts DiskFacts FramesFacts Pipeline Success Staging Replies.

Lemma sends_snoc tr e :
  sends (tr ++ [e])
  = sends tr ++ match e with EvSend r => [r] | _ => [] end.
Proof. unfold sends. rewrite omap_app. by destruct e. Qed.

Lemma sends_set_disk m e st :
  (∀ r, e ≠ EvSend r) → sends (trace (set_disk m e st)) = sends (trace st).
Proof.
  intros He. simpl. rewrite sends_snoc.
  destruct e; rewrite ?app_nil_r; try done. by destruct (He r).
Qed.

Lemma sends_send r st : sends (trace (send r st)) = sends (trace st) ++ [r].
Proof. simpl. by rewrite sends_snoc. Qed.

Lemma sends_write_frames od frames st :
  sends (trace (write_frames od frames st)) = sends (trace st).
Proof.
  induction frames as [|f frames IH] using rev_ind; [done|].
  rewrite write_frames_snoc. unfold write_frame.
  by rewrite sends_set_disk.
Qed.

Lemma sends_cleanup p st : sends (trace (cleanup p st)) = sends (trace st).
Proof. rewrite cleanup_trace, sends_snoc. apply app_nil_r. Qed.

Lemma sends_ensure_temp w st st1 :
  ensure_temp w st = inr st1 → sends (trace st1) = sends (trace st).
Proof.
  unfold ensure_temp. destruct (existsSync _ _); [by intros [= <-]|].
  destruct (mkdir_p _ _); [done|]. intros [= <-]. by rewrite sends_set_disk.
Qed.

Lemma sends_downloadVideo w url st :
  sends (trace (downloadVideo w url st).1) = sends (trace st).
Proof.
  unfold downloadVideo.
  destruct (ensure_temp w st) as [e|st0] eqn:E; [done|].
  apply sends_ensure_temp in E.
  destruct (open_w _ _) as [e|m1]; simpl.
  { by rewrite sends_snoc, app_nil_r. }
  destruct (axios_get w url); simpl;
    rewrite ?sends_snoc, ?app_nil_r; done.
Qed.

Lemma sends_acquire w req st :
  sends (trace (acquire w req st).1) = sends (trace st).
Proof.
  unfold acquire. destruct (url_given req) as [url|].
  - pose proof (sends_downloadVideo w url st) as H.
    by destruct (downloadVideo w url st) as [st' [vp|msg|]].
  - by destruct (file_path req).
Qed.

Lemma sends_catch_block msg od st :
  sends (trace (catch_block msg od st))
  = sends (trace st) ++ [extract_error msg].
Proof.
  unfold catch_block. rewrite sends_send. f_equal.
  destruct od as [d|]; [|done].
  destruct (rm_rf _ _); simpl; by rewrite sends_snoc, app_nil_r.
Qed.

(** X8. The handler never answers twice: the replies along its trace are
    the one reply recorded as sent, or none when nothing was sent. *)
Theorem post_answers_at_most_once w req m :
  let st := postExtractKeyframes w req (start m) in
  sends (trace st) = option_list (replied st).
Proof.
  simpl. unfold postExtractKeyframes, try_block.
  destruct (parse_interval (interval_field req)) as [e|i0]; [done|].
  unfold try_with, settle.
  destruct (_ || _) eqn:Hrange; [done|].
  pose proof (acquire_sent w req (start m)) as Hsent.
  pose proof (sends_acquire w req (start m)) as Hsends.
  destruct (acquire w req (start m)) as [st1 [vp|msg| |]] eqn:Hacq;
    simpl in Hsent, Hsends.
  - unfold extract_into.
    destruct (mkdir_p _ _) as [e|m2] eqn:Hmk.
    { simpl. unfold replied.
      rewrite sends_cleanup, cleanup_sent, sends_catch_block. simpl.
      by rewrite sends_snoc, Hsends. }
    unfold extractKeyframes. simpl disk.
    destruct (ffmpeg w m2 vp _) as [frames|msg frames|frames] eqn:Heng.
    + destruct (readdir _ _ _) as [e|files];
        [simpl; unfold replied;
         rewrite sends_write_frames, write_frames_sent; simpl;
         by rewrite sends_snoc, Hsends, Hsent|].
      destruct (collectFrames _ _) as [paths|] eqn:Hcol; simpl.
      * unfold replied. rewrite sends_cleanup, cleanup_sent, sends_send.
        rewrite sends_write_frames. simpl. by rewrite sends_snoc, Hsends.
      * unfold replied. rewrite sends_write_frames, write_frames_sent. simpl.
        by rewrite sends_snoc, Hsends, Hsent.
    + simpl. unfold replied.
      rewrite sends_cleanup, cleanup_sent, sends_catch_block.
      rewrite sends_write_frames. simpl. by rewrite sends_snoc, Hsends.
    + simpl. unfold replied. rewrite sends_write_frames, write_frames_sent.
      simpl. by rewrite sends_snoc, Hsends, Hsent.
  - simpl. by rewrite sends_snoc, Hsends.
  - simpl. unfold replied. by rewrite Hsends, Hsent.
  - simpl. by rewrite sends_snoc, Hsends.
Qed.

Lemma sortFrames_None l :
  sortFrames l = None → ∃ f, f ∈ l ∧ throws f = true.
Proof.
  destruct l as [|a [|b l]]; [done..|]. unfold sortFrames.
  destruct (forallb _ _) eqn:E; [done|]. intros _.
  apply not_true_iff_false in E. rewrite forallb_forall in E.
  destruct (decide (Exists (λ f, throws f = true) (a :: b :: l))) as [H|H].
  - apply Exists_exists in H as (f & ? & ?). by exists f.
  - destruct E. intros f Hf%list_elem_of_In.
    destruct (throws f) eqn:Ef; [|done].
    destruct H. apply Exists_exists. by exists f.
Qed.

(** X9. Among the outcomes of the download, of the engine and of the file
    system calls, a request stays unanswered in four cases only: the
    write stream of the download cannot be opened, the download's response
    stream breaks off, the engine neither ends nor reports an error, or
    the output directory lists a name that starts with [frame_] and holds
    no digit, on which the sort comparator throws inside the ['end']
    callback. *)
Theorem post_unanswered_only_if w req m :
  replied (postExtractKeyframes w req (start m)) = None →
  (∃ url st0 e, url_given req = Some url
                ∧ ensure_temp w (start m) = inr st0
                ∧ open_w (disk st0)
                    (segs (join (segs (tempDir w)) [uuid_download w +:+ ".mp4"]))
                  = inl e)
  ∨ (∃ url partial, url_given req = Some url
                    ∧ axios_get w url = DlStalled partial)
  ∨ (∃ st1 vp m2 frames,
       acquire w req (start m) = (st1, Staged vp)
       ∧ mkdir_p (disk st1) (join (dirname w) ["uploads"; uuid_job w]) = inr m2
       ∧ ffmpeg w m2 vp (interval_of (interval_field req)) = EngineHangs frames)
  ∨ (∃ st1 vp m2 frames f,
       acquire w req (start m) = (st1, Staged vp)
       ∧ mkdir_p (disk st1) (join (dirname w) ["uploads"; uuid_job w]) = inr m2
       ∧ ffmpeg w m2 vp (interval_of (interval_field req)) = EngineEnd frames
       ∧ f ∈ listing w
               (disk (write_frames
                        (segs (join (dirname w) ["uploads"; uuid_job w])) frames
                        (set_disk m2
                           (EvMkdir (join (dirname w) ["uploads"; uuid_job w]))
                           st1)))
               (segs (join (dirname w) ["uploads"; uuid_job w]))
       ∧ isFrame f = true ∧ throws f = true).
Proof.
  unfold postExtractKeyframes, try_block.
  destruct (parse_interval (interval_field req)) as [e|i0] eqn:Hparse; [done|].
  pose proof (parse_interval_of _ _ Hparse) as <-.
  unfold try_with, settle.
  destruct (_ || _) eqn:Hrange; [done|].
  destruct (acquire w req (start m)) as [st1 [vp|msg| |]] eqn:Hacq.
  - unfold extract_into.
    destruct (mkdir_p _ _) as [e|m2] eqn:Hmk.
    { simpl. unfold replied. by rewrite cleanup_sent. }
    unfold extractKeyframes. simpl disk.
    destruct (ffmpeg w m2 vp _) as [frames|msg frames|frames] eqn:Heng.
    + rewrite (readdir_after_mkdir w _ _ _ _ _ Hmk).
      destruct (collectFrames _ _) as [paths|] eqn:Hcol; simpl.
      { unfold replied. by rewrite cleanup_sent. }
      intros _. do 3 right. unfold collectFrames in Hcol.
      destruct (sortFrames _) as [sorted|] eqn:Hsort; [done|].
      apply sortFrames_None in Hsort as (f & Hf & Ht).
      apply list_elem_of_In, filter_In in Hf as [Hf%list_elem_of_In Hfr].
      by exists st1, vp, m2, frames, f.
    + simpl. unfold replied. by rewrite cleanup_sent.
    + intros _. do 2 right. left. by exists st1, vp, m2, frames.
  - done.
  - intros _. unfold acquire in Hacq.
    destruct (url_given req) as [url|] eqn:Hurl;
      [|destruct (file_path req); done].
    destruct (downloadVideo w url (start m)) as [st' [vp'|msg'|]] eqn:Hdl;
      simplify_eq/=.
    unfold downloadVideo in Hdl.
    destruct (ensure_temp w (start m)) as [e|st0] eqn:E; [done|].
    destruct (open_w _ _) as [e|m1] eqn:Ho.
    { left. by exists url, st0, e. }
    right. left. destruct (axios_get w url) eqn:Hax; simplify_eq/=.
    by exists url, partial.
  - done.
Qed.

Lemma post_unanswered_only_if_witness :
  let w := World app "http://localhost:3000" "u" "d" "j"
             (λ _, DlStalled "<half a clip>") (λ _ _ _, EngineEnd []) id in
  let req := Request (Str "5") (Some "http://example.com/clip.mp4") None in
  replied (postExtractKeyframes w req (start image)) = None
  ∧ ∃ url partial, url_given req = Some url ∧ axios_get w url = DlStalled partial.
Proof.
  intros w req.
  assert (replied (postExtractKeyframes w req (start image)) = None) as H.
  { by vm_compute. }
  split; [exact H|].
  destruct (post_unanswered_only_if w req image H)
    as [(url & st0 & e & _ & Ht & Ho)|[(url & partial & Hu & Ha)|
        [(st1 & vp & m2 & frames & Hacq & _)|
         (st1 & vp & m2 & frames & f & Hacq & _)]]].
  - exfalso. unfold ensure_temp in Ht.
    replace (existsSync (disk (start image)) (tempDir w)) with true in Ht
      by (by vm_compute).
    injection Ht as <-. apply (f_equal succeeded) in Ho.
    vm_compute in Ho. discriminate Ho.
  - by exists url, partial.
  - exfalso. apply (f_equal snd) in Hacq. vm_compute in Hacq. discriminate Hacq.
  - exfalso. apply (f_equal snd) in Hacq. vm_compute in Hacq. discriminate Hacq.
Defined.

End Answering.

(** ** What a request leaves alone *)

Module Isolation.
Import Text Path Disk Frames Server Props Example Places.
Import PathFacts DiskFacts FramesFacts Pipeline Success Staging Replies.

Lemma cleanup_other p st k :
  k ≠ segs p → disk (cleanup p st) !! k = disk st !! k.
Proof.
  intros Hk. unfold cleanup, unlink.
  destruct (lstat (disk st) p); simpl; [done..| |done].
  by apply lookup_delete_ne.
Qed.

Lemma open_w_other (m m1 : fs) p k :
  open_w m p = inr m1 → k ≠ p → m1 !! k = m !! k.
Proof.
  unfold open_w. intros H Hk.
  destruct (resolve m [] (removelast p)); try done.
  destruct (node_at m p) as [[?|]|]; simplify_eq/=;
    by rewrite lookup_insert_ne.
Qed.

Lemma downloadVideo_other w url st k :
  plain_seg (uuid_download w +:+ ".mp4") = true →
  k ≠ download_path w → ¬ k `prefix_of` temp_path w →
  disk (downloadVideo w url st).1 !! k = disk st !! k.
Proof.
  intros Hname Hk Hpre. unfold downloadVideo.
  rewrite (join_temp_name w _ Hname). simpl segs. fold (download_path w).
  destruct (ensure_temp w st) as [e|st0] eqn:E; [done|].
  pose proof (ensure_temp_other w st st0 k E Hpre) as H0.
  destruct (open_w (disk st0) (download_path w)) as [e|m1] eqn:Ho; [done|].
  pose proof (open_w_other _ _ _ k Ho Hk) as H1.
  destruct (axios_get w url); simpl; rewrite ?lookup_insert_ne by done;
    congruence.
Qed.

Lemma acquire_other w req st k :
  plain_seg (uuid_download w +:+ ".mp4") = true →
  k ≠ download_path w → ¬ k `prefix_of` temp_path w →
  disk (acquire w req st).1 !! k = disk st !! k.
Proof.
  intros Hname Hk Hpre. unfold acquire.
  destruct (url_given req) as [url|].
  - pose proof (downloadVideo_other w url st k Hname Hk Hpre) as H.
    by destruct (downloadVideo w url st) as [st' [vp|msg|]].
  - by destruct (file_path req).
Qed.

(** The staged video is the download or the uploaded file. *)
Lemma acquire_source w req st st1 vp :
  plain_seg (uuid_download w +:+ ".mp4") = true →
  acquire w req st = (st1, Staged vp) →
  (∃ url, url_given req = Some url ∧ segs vp = download_path w)
  ∨ (url_given req = None ∧ file_path req = Some (segs vp)).
Proof.
  intros Hname. unfold acquire. destruct (url_given req) as [url|].
  - destruct (downloadVideo w url st) as [st' [vp'|msg|]] eqn:E;
      intros H; simplify_eq/=.
    left. exists url. split; [done|].
    unfold downloadVideo in E. rewrite (join_temp_name w _ Hname) in E.
    destruct (ensure_temp w st); [done|].
    destruct (open_w _ _); [done|].
    by destruct (axios_get w url); simplify_eq/=.
  - destruct (file_path req) as [f|]; intros H; simplify_eq/=. by right.
Qed.

(** Outside the staging directory, the staged files and the job's own
    directory, the handler changes nothing. *)
Lemma post_outside w req m k :
  plain_ids w →
  ¬ k `prefix_of` temp_path w → k ≠ download_path w →
  file_path req ≠ Some k →
  ¬ k `prefix_of` job_path w → ¬ job_path w `prefix_of` k →
  disk (postExtractKeyframes w req (start m)) !! k = m !! k.
Proof.
  intros Hids Htemp Hdl Hfile Habove Hbelow.
  pose proof Hids as [_ Hname].
  unfold postExtractKeyframes, try_block.
  destruct (parse_interval (interval_field req)) as [e|i0]; [done|].
  unfold try_with, settle.
  destruct (_ || _) eqn:Hrange; [done|].
  pose proof (acquire_other w req (start m) k Hname Hdl Htemp) as Hacc.
  destruct (acquire w req (start m)) as [st1 [vp|msg| |]] eqn:Hacq;
    simpl in Hacc; [|done..].
  assert (k ≠ segs vp) as Hvp.
  { destruct (acquire_source w req _ _ _ Hname Hacq)
      as [(url & _ & ->)|[_ Hf]]; [done|]. by intros ->. }
  unfold extract_into. rewrite (job_dir w Hids). fold (job_path w).
  destruct (mkdir_p _ _) as [e|m2] eqn:Hmk.
  { simpl. rewrite cleanup_other by done. unfold catch_block. simpl.
    destruct (rm_rf _ _) as [e'|m0] eqn:Hrm; simpl; [done|].
    by rewrite (rm_rf_outside _ _ _ k Hrm). }
  pose proof (mkdir_p_other _ _ _ k Hmk Habove) as H2.
  assert (∀ s, k ≠ job_path w ++ [s]) as Hchild.
  { intros s ->. apply Hbelow. by exists [s]. }
  unfold extractKeyframes. simpl disk.
  destruct (ffmpeg w m2 vp _) as [frames|msg frames|frames] eqn:Heng.
  - destruct (readdir _ _ _) as [e|files];
      [simpl; rewrite write_frames_other by done; simpl; congruence|].
    destruct (collectFrames _ _) as [paths|] eqn:Hcol; simpl.
    + rewrite cleanup_other by done. simpl.
      rewrite write_frames_other by done. simpl. congruence.
    + rewrite write_frames_other by done. simpl. congruence.
  - simpl. rewrite cleanup_other by done. unfold catch_block. simpl.
    destruct (rm_rf _ _) as [e'|m0] eqn:Hrm; simpl.
    + rewrite write_frames_other by done. simpl. congruence.
    + rewrite (rm_rf_outside _ _ _ k Hrm) by done.
      rewrite write_frames_other by done. simpl. congruence.
  - simpl. rewrite write_frames_other by done. simpl. congruence.
Qed.

Lemma sibling_not_prefix (base : path) a b rest1 rest2 :
  a ≠ b → ¬ (base ++ a :: rest1) `prefix_of` base ++ b :: rest2.
Proof. intros Hab H%prefix_app_inv. by apply prefix_cons_inv_1 in H. Qed.

Lemma below_other_job (base : path) other k :
  (base ++ ["uploads"; other]) `prefix_of` k →
  ∃ rest, k = base ++ "uploads" :: other :: rest.
Proof. intros [rest ->]. exists rest. by rewrite <- app_assoc. Qed.

(** X10. Other jobs are out of reach of a request: whatever it does and
    however it ends, every path at or below the output directory of
    another identifier is afterwards as it was. *)
Theorem post_leaves_other_jobs w req m other k :
  plain_ids w → upload_in_temp w req →
  other ≠ uuid_job w →
  (uploads_root w ++ [other]) `prefix_of` k →
  disk (postExtractKeyframes w req (start m)) !! k = m !! k.
Proof.
  intros Hids Hup Hother Hk.
  unfold uploads_root in Hk. rewrite <- app_assoc in Hk.
  apply below_other_job in Hk as [rest ->].
  apply post_outside; [done|..]; unfold download_path, temp_path, job_path.
  - by apply sibling_not_prefix.
  - rewrite <- app_assoc. intros H%app_inv_head. by injection H.
  - intros Hf. destruct (Hup _ Hf) as [name H]. unfold temp_path in H.
    rewrite <- app_assoc in H. apply app_inv_head in H. by injection H.
  - intros H%prefix_app_inv. apply prefix_cons_inv_2 in H.
    by apply prefix_cons_inv_1 in H.
  - intros H%prefix_app_inv. apply prefix_cons_inv_2 in H.
    apply prefix_cons_inv_1 in H. by destruct Hother.
Qed.

Lemma post_leaves_other_jobs_witness :
  let req := Request (Str "5") None (Some staged_clip) in
  disk (postExtractKeyframes world_broken req (start image_old_job))
    !! (app ++ ["uploads"; "a-older-job"; "frame_1.jpg"])
  = Some (File "<old jpeg>").
Proof.
  intros req.
  rewrite (post_leaves_other_jobs world_broken req image_old_job "a-older-job").
  - by vm_compute.
  - split; reflexivity.
  - intros f [= <-]. by exists "0b0e7f3c-upload.mp4".
  - done.
  - by exists ["frame_1.jpg"].
Defined.

(** X11. With both a [videoUrl] and an uploaded file the URL wins: the
    handler does what it does for the request without the file, and the
    uploaded file is still in the staging directory afterwards, however the
    request ends. *)
Theorem url_takes_precedence w req m url f name :
  plain_ids w →
  url_given req = Some url →
  file_path req = Some f → f = temp_path w ++ [name] →
  name ≠ uuid_download w +:+ ".mp4" →
  let st := postExtractKeyframes w req (start m) in
  st = postExtractKeyframes w (without_file req) (start m)
  ∧ disk st !! f = m !! f.
Proof.
  intros Hids Hurl Hfile -> Hname st.
  assert (st = postExtractKeyframes w (without_file req) (start m)) as ->.
  { subst st. unfold postExtractKeyframes, try_block.
    change (interval_field (without_file req)) with (interval_field req).
    destruct (parse_interval _); [done|]. unfold try_with, acquire.
    assert (url_given (without_file req) = Some url) as -> by done.
    by rewrite Hurl. }
  split; [done|]. apply post_outside; [done|..];
    unfold download_path, temp_path, job_path.
  - apply prefix_snoc_not.
  - intros H%app_inv_head. by injection H.
  - done.
  - rewrite <- app_assoc. by apply sibling_not_prefix.
  - rewrite <- app_assoc. by apply sibling_not_prefix.
Qed.

Lemma url_takes_precedence_witness :
  let req := Request (Str "5") (Some "http://example.com/clip.mp4")
               (Some staged_clip) in
  disk (postExtractKeyframes world_ok req (start image_staged)) !! staged_clip
  = Some (File "<mp4 bytes>").
Proof.
  intros req.
  destruct (url_takes_precedence world_ok req image_staged
              "http://example.com/clip.mp4" staged_clip "0b0e7f3c-upload.mp4")
    as [_ ->]; [split; reflexivity|reflexivity|reflexivity|reflexivity|done|].
  by vm_compute.
Defined.

(** X12. DELETE removes the directory it names and nothing else: a path
    that is not at or below the joined path is as before, whatever the
    identifier and even when the removal fails; when the joined path is a
    directory the reply is 200 and nothing is left at or below it; and for
    an identifier that is a plain name, every other job is untouched. *)
Theorem deleteFrames_removes_exactly w m videoId :
  let videoDir := join (dirname w) ["uploads"; videoId] in
  let st := deleteFrames w videoId (start m) in
  (∀ k, ¬ segs videoDir `prefix_of` k → disk st !! k = m !! k)
  ∧ (lstat m videoDir = IsDir →
     replied st = Some (Json 200 JDeleted)
     ∧ ∀ k, segs videoDir `prefix_of` k → disk st !! k = None)
  ∧ (plain_seg videoId = true →
     ∀ other k, other ≠ videoId →
       (uploads_root w ++ [other]) `prefix_of` k → disk st !! k = m !! k).
Proof.
  simpl.
  assert (∀ k, ¬ segs (join (dirname w) ["uploads"; videoId]) `prefix_of` k →
               disk (deleteFrames w videoId (start m)) !! k = m !! k) as Hout.
  { intros k Hk. unfold deleteFrames.
    destruct (rm_rf _ _) as [e|m1] eqn:E; simpl; [done|].
    by apply (rm_rf_outside _ _ _ k E). }
  split_and!; [done|..].
  - intros Hdir. unfold deleteFrames, rm_rf. simpl. rewrite Hdir. simpl.
    split; [done|]. intros k Hk. rewrite rm_dir_lookup. by case_decide.
  - intros Hplain other k Hother Hk. apply Hout.
    rewrite (join_uploads _ _ Hplain). simpl.
    unfold uploads_root in Hk. rewrite <- app_assoc in Hk.
    apply below_other_job in Hk as [rest ->].
    intros H%prefix_app_inv. apply prefix_cons_inv_2 in H.
    apply prefix_cons_inv_1 in H. by destruct Hother.
Qed.

Lemma deleteFrames_removes_exactly_witness :
  let st := deleteFrames world_ok "a-older-job" (start image_old_job) in
  replied st = Some (Json 200 JDeleted)
  ∧ disk st !! (app ++ ["uploads"; "a-older-job"; "frame_1.jpg"]) = None
  ∧ disk st !! staged_clip = Some (File "<mp4 bytes>").
Proof.
  intros st.
  destruct (deleteFrames_removes_exactly world_ok image_old_job "a-older-job")
    as (Hout & Hin & _).
  destruct Hin as [Hr Hk]; [reflexivity|].
  split_and!; [exact Hr| |].
  - apply Hk. by exists ["frame_1.jpg"].
  - subst st. rewrite Hout; [by vm_compute|].
    intros H. apply (prefix_app_inv app) in H. by apply prefix_cons_inv_1 in H.
Defined.

End Isolation.

(** ** From the engine's frames to the reply and back *)

Module RoundTrips.
Import Text Path Disk Frames Server Props Example Places.
Import PathFacts DiskFacts FramesFacts FrameRoutes Pipeline Success FrameNumber.
Import Staging Replies Isolation.

Lemma frame_name_inj a b : frame_name a = frame_name b → a = b.
Proof.
  intros H. apply Nat2Z.inj.
  destruct (frame_name_number a) as [_ <-].
  destruct (frame_name_number b) as [_ <-]. by rewrite H.
Qed.

Lemma by_index_frame_names ns :
  StronglySorted by_index (map frame_name ns) → StronglySorted Nat.le ns.
Proof.
  induction ns as [|n ns IH]; simpl; [constructor|].
  intros [Hs Hn]%StronglySorted_inv. constructor; [by apply IH|].
  apply Forall_forall. intros k Hk.
  rewrite Forall_forall in Hn.
  specialize (Hn (frame_name k) (list_elem_of_fmap_2 _ _ _ Hk)).
  unfold by_index in Hn.
  destruct (frame_name_number n) as [_ En].
  destruct (frame_name_number k) as [_ Ek].
  rewrite En, Ek in Hn. unfold Nat.le. lia.
Qed.

(** In a new output directory the ['end'] callback finds one name per
    distinct frame number and puts the numbers in increasing order, whatever
    the order of the listing. *)
Lemma engine_end_collects w st1 m2 frames :
  (∀ l, readdir_order w l ≡ₚ l) →
  unused (disk st1) (job_path w) →
  mkdir_p (disk st1) (plainp (job_path w)) = inr m2 →
  collectFrames (job_path w)
    (listing w (disk (produced w frames m2 st1)) (job_path w))
  = Some (map (λ n, plainp (job_path w ++ [frame_name n]))
            (frame_numbers frames)).
Proof.
  intros Hord Hfresh Hmk.
  set (files := listing w (disk (produced w frames m2 st1)) (job_path w)).
  set (distinct := remove_dups frames.*1).
  assert (files ≡ₚ map frame_name distinct) as Hfiles.
  { unfold files, listing. rewrite Hord.
    apply (fresh_listing w st1 m2 frames _ Hfresh Hmk).
    - apply (@NoDup_fmap_2 _ _ frame_name frame_name_inj), NoDup_remove_dups.
    - intros s. rewrite !list_elem_of_fmap. split.
      + intros (n & -> & Hn). unfold distinct in Hn.
        apply (proj1 (elem_of_remove_dups _ _)) in Hn.
        apply list_elem_of_fmap in Hn as (f & -> & Hf). by exists f.
      + intros (f & -> & Hf). exists f.1. split; [done|].
        apply elem_of_remove_dups. by apply list_elem_of_fmap_2. }
  assert (∀ f, f ∈ files → ∃ n, f = frame_name n) as Hnames.
  { intros f Hf. rewrite Hfiles in Hf.
    apply list_elem_of_fmap in Hf as (n & -> & _). by exists n. }
  destruct (collectFrames_sorted (job_path w) files) as (names & Hcol & Hp & Hs).
  { intros f [n ->]%Hnames _. apply frame_name_number. }
  rewrite EndToEnd.filter_all in Hp
    by (intros f [n ->]%Hnames; apply frame_name_isFrame).
  rewrite Hfiles in Hp.
  apply Permutation_map_inv in Hp as (ns & -> & Hns).
  apply by_index_frame_names in Hs.
  assert (ns = frame_numbers frames) as ->.
  { apply (StronglySorted_unique Nat.le); [done| |].
    - apply (StronglySorted_merge_sort Nat.le).
    - unfold frame_numbers. by rewrite merge_sort_Permutation, <- Hns. }
  rewrite Hcol, map_map. f_equal. apply map_ext. intros n.
  apply join_frame_name.
Qed.

(** X13. When the engine ends in a new output directory, the reply is
    fixed by the frames it wrote: 200 with one URL per distinct frame
    number, in increasing order of the number, and [frameCount] their
    count. The order in which the directory is listed plays no part. *)
Theorem engine_end_fixes_the_reply w req m st1 vp m2 frames :
  plain_ids w → valid_interval req →
  (∀ l, readdir_order w l ≡ₚ l) →
  acquire w req (start m) = (st1, Staged vp) →
  unused (disk st1) (job_path w) →
  mkdir_p (disk st1) (join (dirname w) ["uploads"; uuid_job w]) = inr m2 →
  ffmpeg w m2 vp (interval_of (interval_field req)) = EngineEnd frames →
  replied (postExtractKeyframes w req (start m))
  = Some (Json 200
            (JExtracted (uuid_job w) (interval_of (interval_field req))
               (length (frame_numbers frames))
               (map (frame_url w) (frame_numbers frames)))).
Proof.
  intros Hids Hint Hord Hacq Hfresh Hmk Heng.
  rewrite (job_dir w Hids) in Hmk. fold (job_path w) in Hmk.
  pose proof (engine_end_collects w st1 m2 frames Hord Hfresh Hmk) as Hcol.
  rewrite (post_success w Hids req m st1 vp m2 frames _ Hint Hacq Hmk Heng Hcol).
  unfold replied. rewrite cleanup_sent. simpl.
  rewrite !length_map, map_map. do 3 f_equal.
  apply map_ext. intros n. unfold frameUrl, frame_url. simpl.
  by rewrite basename_snoc.
Qed.

Lemma engine_end_fixes_the_reply_witness :
  let req := Request (Str "7") None (Some staged_clip) in
  replied (postExtractKeyframes world_shuffled req (start image_staged))
  = Some (Json 200
            (JExtracted "c4f1a2b3-job" 7 3
               ["http://localhost:3000/frames/c4f1a2b3-job/frame_1.jpg";
                "http://localhost:3000/frames/c4f1a2b3-job/frame_2.jpg";
                "http://localhost:3000/frames/c4f1a2b3-job/frame_10.jpg"])).
Proof.
  intros req.
  assert (plain_ids world_shuffled) as Hids by (split; reflexivity).
  assert (valid_interval req) as Hint by (by vm_compute).
  assert (unused image_staged (job_path world_shuffled)) as Hfresh.
  { unfold unused. apply (bool_decide_unpack _). by vm_compute. }
  assert (∃ m2, mkdir_p image_staged (join app ["uploads"; "c4f1a2b3-job"])
                = inr m2) as [m2 Hmk].
  { apply succeeded_inr. by vm_compute. }
  exact (engine_end_fixes_the_reply world_shuffled req image_staged
           (start image_staged) (plainp staged_clip) m2 shuffled_frames
           Hids Hint (λ l, reflexivity l) eq_refl Hfresh Hmk eq_refl).
Defined.

(** Once the handler has answered 200, the job's directory resolves. *)
Lemma post_success_resolves w req m st1 vp m2 frames r :
  plain_ids w → upload_staged w m req →
  acquire w req (start m) = (st1, Staged vp) →
  mkdir_p (disk st1) (plainp (job_path w)) = inr m2 →
  resolve (disk (cleanup vp (send r (produced w frames m2 st1)))) []
    (job_path w) = IsDir.
Proof.
  intros Hids Hup Hacq Hmk.
  destruct (acquire_staged w req m st1 vp Hids Hup Hacq) as ([name ->] & _).
  trans (resolve (disk (produced w frames m2 st1)) [] (job_path w)).
  - apply resolve_ext. intros q Hq. rewrite cleanup_other; [done|].
    intros ->. simpl in Hq. revert Hq. unfold job_path.
    by apply sibling_not_prefix.
  - unfold produced. rewrite write_frames_resolve.
    exact (mkdir_p_resolves _ _ _ Hmk).
Qed.

Lemma existsSync_file (m : fs) (p : path) s d :
  resolve m [] p = IsDir → m !! (p ++ [s]) = Some (File d) →
  existsSync m (plainp (p ++ [s])) = true.
Proof.
  intros Hp Hs. unfold existsSync. by rewrite (lstat_child_file _ _ _ d Hp Hs).
Qed.

Lemma elem_of_frame_numbers frames n :
  n ∈ frame_numbers frames ↔ n ∈ frames.*1.
Proof.
  unfold frame_numbers. by rewrite merge_sort_Permutation, elem_of_remove_dups.
Qed.

Lemma singleton_inj {A} (a b : A) : [a] = [b] → a = b.
Proof. by intros [= ->]. Qed.

Lemma job_path_snoc_ne w s : job_path w ++ [s] ≠ [].
Proof. by destruct (job_path w). Qed.

(** X14. What POST returns, GET serves: after a success reply, GET with the
    returned identifier and the name [frame_<n>.jpg] passes the frame's file
    in the job's directory to [res.sendFile] for every frame number the
    engine wrote, and answers 404 for every other number. *)
Theorem returned_frames_are_served w req m st1 vp m2 frames :
  plain_ids w → upload_staged w m req → valid_interval req →
  (∀ l, readdir_order w l ≡ₚ l) →
  acquire w req (start m) = (st1, Staged vp) →
  unused (disk st1) (job_path w) →
  mkdir_p (disk st1) (join (dirname w) ["uploads"; uuid_job w]) = inr m2 →
  ffmpeg w m2 vp (interval_of (interval_field req)) = EngineEnd frames →
  let st := postExtractKeyframes w req (start m) in
  ∀ n,
    replied (getFrame w (uuid_job w) (frame_name n) (start (disk st)))
    = Some (if decide (n ∈ frame_numbers frames)
            then SendFile (plainp (job_path w ++ [frame_name n]))
            else not_found).
Proof.
  intros Hids Hup Hint Hord Hacq Hfresh Hmk Heng st n. subst st.
  rewrite (job_dir w Hids) in Hmk. fold (job_path w) in Hmk.
  pose proof (engine_end_collects w st1 m2 frames Hord Hfresh Hmk) as Hcol.
  rewrite (post_success w Hids req m st1 vp m2 frames _ Hint Hacq Hmk Heng Hcol).
  set (r := Json 200 _).
  destruct (post_success_disk w Hids req m st1 vp m2 frames r Hup Hacq Hmk)
    as (_ & _ & Hf).
  pose proof (post_success_resolves w req m st1 vp m2 frames r Hids Hup Hacq Hmk)
    as Hjob.
  unfold getFrame. simpl disk.
  rewrite (join_frame _ _ _ (frame_name_plain n)), (job_dir w Hids).
  simpl segs. fold (job_path w).
  case_decide as Hn.
  - apply elem_of_frame_numbers, list_elem_of_fmap in Hn as (f & -> & Hin).
    destruct (Hf f Hin) as [d Hd].
    by rewrite (existsSync_file _ _ _ d Hjob Hd).
  - rewrite existsSync_absent; [done| |apply job_path_snoc_ne].
    destruct (acquire_staged w req m st1 vp Hids Hup Hacq)
      as ([name ->] & _ & _).
    rewrite cleanup_other by (simpl; apply not_eq_sym, temp_not_uploads).
    simpl. unfold produced.
    destruct (write_frames_lookup (job_path w) frames
                (set_disk m2 (EvMkdir (plainp (job_path w))) st1)
                (job_path w ++ [frame_name n]))
      as [->|(f & d & Hin & Heq & _)].
    + simpl. rewrite (mkdir_p_other _ _ _ _ Hmk) by apply prefix_snoc_not.
      apply (Success.unused_lookup _ _ _ Hfresh). by exists [frame_name n].
    + apply app_inv_head, singleton_inj, frame_name_inj in Heq.
      subst n. destruct Hn.
      apply elem_of_frame_numbers. by apply list_elem_of_fmap_2.
Qed.

Lemma returned_frames_are_served_witness :
  let req := Request (Str "7") None (Some staged_clip) in
  let st := postExtractKeyframes world_shuffled req (start image_staged) in
  replied (getFrame world_shuffled "c4f1a2b3-job" "frame_10.jpg" (start (disk st)))
  = Some (SendFile (plainp (app ++ ["uploads"; "c4f1a2b3-job"; "frame_10.jpg"])))
  ∧ replied (getFrame world_shuffled "c4f1a2b3-job" "frame_3.jpg" (start (disk st)))
    = Some not_found.
Proof.
  intros req st.
  assert (plain_ids world_shuffled) as Hids by (split; reflexivity).
  assert (upload_staged world_shuffled image_staged req) as Hup.
  { intros f [= <-]. exists "0b0e7f3c-upload.mp4", "<mp4 bytes>". by vm_compute. }
  assert (valid_interval req) as Hint by (by vm_compute).
  assert (unused image_staged (job_path world_shuffled)) as Hfresh.
  { unfold unused. apply (bool_decide_unpack _). by vm_compute. }
  assert (∃ m2, mkdir_p image_staged (join app ["uploads"; "c4f1a2b3-job"])
                = inr m2) as [m2 Hmk].
  { apply succeeded_inr. by vm_compute. }
  pose proof (returned_frames_are_served world_shuffled req image_staged
                (start image_staged) (plainp staged_clip) m2 shuffled_frames
                Hids Hup Hint (λ l, reflexivity l) eq_refl Hfresh Hmk eq_refl)
    as H.
  split; [exact (H 10%nat)|exact (H 3%nat)].
Defined.

Lemma mkdir_from_root m pre rest r :
  mkdir_from m pre rest = inr r → r !! [] = m !! [].
Proof.
  revert m pre. induction rest as [|s rest IH]; intros m pre; simpl.
  - by intros [= ->].
  - destruct (m !! (pre ++ [s])) as [[d|]|] eqn:E; [done|apply IH|].
    intros H. rewrite (IH _ _ H). apply lookup_insert_ne. by destruct pre.
Qed.

Lemma prefix_snoc_inv {A} (k l : list A) x :
  k `prefix_of` l ++ [x] → k = l ++ [x] ∨ k `prefix_of` l.
Proof.
  intros [r Hr]. destruct r as [|y r _] using rev_ind.
  - left. by rewrite app_nil_r in Hr.
  - right. rewrite app_assoc in Hr. apply app_inj_tail in Hr as [-> _].
    by exists r.
Qed.

(** On a tree, whatever lies above a stored path is a directory. *)
Lemma tree_ancestors m p q :
  tree m → is_Some (m !! p) → q `prefix_of` p → q ≠ p → q ≠ [] →
  m !! q = Some Dir.
Proof.
  intros Ht Hp [r ->] Hne Hq.
  induction r as [|s r IH] using rev_ind; [by rewrite app_nil_r in Hne|].
  rewrite app_assoc in Hp. pose proof (tree_parent _ _ _ Ht Hp) as Hpar.
  destruct r as [|a r'].
  - rewrite app_nil_r in Hpar. unfold node_at in Hpar. by destruct q.
  - apply IH.
    + unfold node_at in Hpar. destruct (q ++ a :: r') eqn:E; [by destruct q|].
      by rewrite Hpar.
    + intros H. apply (f_equal length) in H. rewrite length_app in H.
      simpl in H. lia.
Qed.

(** Making the job's directory under an existing [uploads] adds that one
    directory. *)
Lemma mkdir_job_only w m m2 k :
  tree m → m !! uploads_root w = Some Dir →
  mkdir_p m (plainp (job_path w)) = inr m2 →
  k ≠ job_path w → m2 !! k = m !! k.
Proof.
  intros Ht Hroot Hmk Hk.
  destruct (mkdir_from_lookup _ _ _ _ k Hmk) as [?|(Hnone & _ & Hpre)]; [done|].
  simpl in Hpre. unfold job_path in Hpre.
  change (dirname w ++ ["uploads"; uuid_job w])
    with (dirname w ++ ["uploads"] ++ [uuid_job w]) in Hpre.
  rewrite app_assoc in Hpre.
  apply prefix_snoc_inv in Hpre as [->|Hpre].
  { destruct Hk. unfold job_path. by rewrite <- app_assoc. }
  destruct (decide (k = [])) as [->|Hne].
  { apply (mkdir_from_root _ _ _ _ Hmk). }
  destruct (decide (k = uploads_root w)) as [->|Hnr]; [congruence|].
  rewrite (tree_ancestors m (uploads_root w) k) in Hnone; done.
Qed.

(** X15. A job that is deleted leaves nothing behind: after a success reply
    followed by DELETE of the returned identifier, the disk is the one the
    extraction started from without the staged video. *)
Theorem deleting_a_job_undoes_it w req m st1 vp m2 frames :
  plain_ids w → upload_staged w m req → valid_interval req →
  (∀ l, readdir_order w l ≡ₚ l) →
  acquire w req (start m) = (st1, Staged vp) →
  tree (disk st1) → disk st1 !! uploads_root w = Some Dir →
  unused (disk st1) (job_path w) →
  mkdir_p (disk st1) (join (dirname w) ["uploads"; uuid_job w]) = inr m2 →
  ffmpeg w m2 vp (interval_of (interval_field req)) = EngineEnd frames →
  let posted := postExtractKeyframes w req (start m) in
  let deleted := deleteFrames w (uuid_job w) (start (disk posted)) in
  replied deleted = Some (Json 200 JDeleted)
  ∧ disk deleted = delete (segs vp) (disk st1).
Proof.
  intros Hids Hup Hint Hord Hacq Ht Hroot Hfresh Hmk Heng posted deleted.
  subst deleted posted.
  rewrite (job_dir w Hids) in Hmk. fold (job_path w) in Hmk.
  pose proof (engine_end_collects w st1 m2 frames Hord Hfresh Hmk) as Hcol.
  rewrite (post_success w Hids req m st1 vp m2 frames _ Hint Hacq Hmk Heng Hcol).
  set (r := Json 200 _).
  destruct (post_success_disk w Hids req m st1 vp m2 frames r Hup Hacq Hmk)
    as (Hgone & Hdir & _).
  pose proof (post_success_resolves w req m st1 vp m2 frames r Hids Hup Hacq Hmk)
    as Hjob.
  destruct (acquire_staged w req m st1 vp Hids Hup Hacq)
    as ([name ->] & [d Hd] & _). simpl segs in *.
  set (posted := cleanup _ _) in *.
  unfold deleteFrames. rewrite (job_dir w Hids). fold (job_path w).
  unfold rm_rf. simpl disk. rewrite lstat_plainp, Hjob.
  simpl. split; [done|]. apply map_eq. intros k.
  rewrite rm_dir_lookup. case_decide as Hk.
  - rewrite lookup_delete_ne.
    + symmetry. by apply (Success.unused_lookup _ _ _ Hfresh).
    + intros <-. by apply (temp_not_below_uploads (dirname w) name [uuid_job w]).
  - destruct (decide (k = dirname w ++ ["temp"; name])) as [->|Hkv].
    { by rewrite Hgone, lookup_delete_eq. }
    rewrite lookup_delete_ne by done.
    unfold posted. rewrite cleanup_other by done. simpl. unfold produced.
    rewrite write_frames_other.
    + simpl. apply (mkdir_job_only w _ _ _ Ht Hroot Hmk).
      intros ->. by destruct Hk.
    + intros s ->. destruct Hk. by exists [s].
Qed.

Lemma deleting_a_job_undoes_it_witness :
  let req := Request (Str "5") None (Some staged_clip) in
  let posted := postExtractKeyframes world_ok req (start image_staged) in
  disk (deleteFrames world_ok "c4f1a2b3-job" (start (disk posted)))
  = delete staged_clip image_staged.
Proof.
  intros req posted.
  assert (plain_ids world_ok) as Hids by (split; reflexivity).
  assert (upload_staged world_ok image_staged req) as Hup.
  { intros f [= <-]. exists "0b0e7f3c-upload.mp4", "<mp4 bytes>". by vm_compute. }
  assert (valid_interval req) as Hint by (by vm_compute).
  assert (tree image_staged) as Ht.
  { unfold tree. apply (bool_decide_unpack _). by vm_compute. }
  assert (unused image_staged (job_path world_ok)) as Hfresh.
  { unfold unused. apply (bool_decide_unpack _). by vm_compute. }
  assert (∃ m2, mkdir_p image_staged (join app ["uploads"; "c4f1a2b3-job"])
                = inr m2) as [m2 Hmk].
  { apply succeeded_inr. by vm_compute. }
  destruct (deleting_a_job_undoes_it world_ok req image_staged
              (start image_staged) (plainp staged_clip) m2 three_frames
              Hids Hup Hint (λ l, reflexivity l) eq_refl Ht)
    as [_ H]; [by vm_compute|exact Hfresh|exact Hmk|reflexivity|exact H].
Defined.

End RoundTrips.

(** ** The interval as a decimal string *)

Module Intervals.
Import Text Path Disk Frames Server Props Example Places.
Import FramesFacts Pipeline FrameNumber Replies.





End Intervals.

(** ** The route from the upload to the reply *)

Module Route.
Import Text Path Disk Frames Server Props Example Places.
Import PathFacts DiskFacts FramesFacts FrameRoutes Pipeline Success FrameNumber.
Import Staging Replies Isolation RoundTrips.












Lemma unused_insert (m : fs) p k v :
  unused m p → ¬ p `prefix_of` k → unused (<[k := v]> m) p.
Proof. intros Hu Hk. by apply map_Forall_insert_2. Qed.



End Route.

(** ** The route for a video given by URL *)

Module Download.
Import Text Path Disk Frames Server Props Example Places.
Import PathFacts DiskFacts FramesFacts FrameRoutes Pipeline Success FrameNumber.
Import Staging Replies Isolation RoundTrips Route.

Lemma downloadVideo_done w url data st :
  plain_seg (uuid_download w +:+ ".mp4") = true →
  axios_get w url = DlDone data →
  lstat (disk st) (tempDir w) = IsDir →
  disk st !! download_path w = None →
  ∃ st1,
    downloadVideo w url st = (st1, Resolved (plainp (download_path w)))
    ∧ disk st1 = <[download_path w := File data]> (disk st)
    ∧ sent st1 = sent st.
Proof.
  intros Hname Hget Htemp Hnew.
  unfold downloadVideo, ensure_temp, existsSync. rewrite Htemp.
  rewrite (join_temp_name w _ Hname). simpl segs. fold (download_path w).
  assert (resolve (disk st) [] (temp_path w) = IsDir) as Hdir.
  { by rewrite temp_path_join, lstat_plainp in Htemp. }
  unfold download_path in *. rewrite (open_w_new _ _ _ Hdir Hnew), Hget.
  eexists. split; [reflexivity|]. split; [simpl; apply insert_insert_eq|done].
Qed.

Lemma post_without_file w req url st :
  url_given req = Some url →
  postExtractKeyframes w req st = postExtractKeyframes w (without_file req) st.
Proof.
  intros Hurl. unfold postExtractKeyframes, try_block.
  change (interval_field (without_file req)) with (interval_field req).
  destruct (parse_interval _); [done|]. unfold try_with, acquire.
  assert (url_given (without_file req) = Some url) as -> by done.
  by rewrite Hurl.
Qed.

(** X18. The whole route for a video given by URL: when the download
    delivers its body under a new name in [temp], the interval is valid and
    the engine ends in a new output directory, the reply is 200 with one
    URL per distinct frame number in increasing order; afterwards the
    download is gone from [temp], the job's directory is there and holds
    every frame written. An uploaded file that came along plays no part. *)
Theorem url_route_succeeds w req url data m m2 frames :
  plain_ids w → (∀ l, readdir_order w l ≡ₚ l) →
  url_given req = Some url → axios_get w url = DlDone data →
  valid_interval req →
  lstat m (tempDir w) = IsDir → m !! download_path w = None →
  unused m (job_path w) →
  mkdir_p (<[download_path w := File data]> m)
    (join (dirname w) ["uploads"; uuid_job w]) = inr m2 →
  ffmpeg w m2 (plainp (download_path w)) (interval_of (interval_field req))
  = EngineEnd frames →
  let st := postExtractKeyframes w req (start m) in
  replied st
  = Some (Json 200
            (JExtracted (uuid_job w) (interval_of (interval_field req))
               (length (frame_numbers frames))
               (map (frame_url w) (frame_numbers frames))))
  ∧ disk st !! download_path w = None
  ∧ disk st !! job_path w = Some Dir
  ∧ ∀ f, f ∈ frames →
      ∃ d, disk st !! (job_path w ++ [frame_name f.1]) = Some (File d).
Proof.
  intros Hids Hord Hurl Hget Hv Htemp Hnew Hfresh Hmk Heng st. subst st.
  pose proof Hids as [_ Hname].
  rewrite (post_without_file w req url _ Hurl).
  set (req' := without_file req).
  destruct (downloadVideo_done w url data (start m) Hname Hget Htemp Hnew)
    as (st1 & Hdl & Hd & Hs). simpl in Hd, Hs.
  assert (acquire w req' (start m) = (st1, Staged (plainp (download_path w))))
    as Hacq.
  { unfold acquire.
    assert (url_given req' = Some url) as -> by done. by rewrite Hdl. }
  assert (upload_staged w m req') as Hup by (by intros f).
  assert (valid_interval req') as Hv' by done.
  rewrite <- Hd in Hmk.
  assert (unused (disk st1) (job_path w)) as Hfresh'.
  { rewrite Hd. apply unused_insert; [done|].
    unfold download_path, temp_path, job_path.
    rewrite <- app_assoc. by apply sibling_not_prefix. }
  rewrite (job_dir w Hids) in Hmk. fold (job_path w) in Hmk.
  pose proof (engine_end_collects w st1 m2 frames Hord Hfresh' Hmk) as Hcol.
  rewrite (post_success w Hids req' m _ _ m2 frames _ Hv' Hacq Hmk Heng Hcol).
  set (r := Json 200 _).
  destruct (post_success_disk w Hids req' m _ _ m2 frames r Hup Hacq Hmk)
    as (Hgone & Hdir & Hf).
  unfold replied. rewrite cleanup_sent. simpl.
  split_and!; [|done..].
  subst r req'. cbn [interval_field without_file].
  rewrite !length_map, map_map. do 3 f_equal.
  apply map_ext. intros n. unfold frameUrl, frame_url. simpl.
  by rewrite basename_snoc.
Qed.

Lemma url_route_succeeds_witness :
  let w := world_online (EngineEnd three_frames) in
  let req := Request (Str "7") (Some "http://videos.example/clip.mp4")
               (Some staged_clip) in
  let st := postExtractKeyframes w req (start image) in
  replied st
  = Some (Json 200
            (JExtracted "c4f1a2b3-job" 7 3
               ["http://localhost:3000/frames/c4f1a2b3-job/frame_1.jpg";
                "http://localhost:3000/frames/c4f1a2b3-job/frame_2.jpg";
                "http://localhost:3000/frames/c4f1a2b3-job/frame_3.jpg"]))
  ∧ disk st !! download_path w = None.
Proof.
  intros w req st.
  assert (plain_ids w) as Hids by (split; reflexivity).
  assert (unused image (job_path w)) as Hfresh.
  { unfold unused. apply (bool_decide_unpack _). by vm_compute. }
  assert (∃ m2, mkdir_p (<[download_path w := File "<downloaded mp4>"]> image)
                  (join app ["uploads"; "c4f1a2b3-job"]) = inr m2) as [m2 Hmk].
  { apply succeeded_inr. by vm_compute. }
  destruct (url_route_succeeds w req "http://videos.example/clip.mp4"
              "<downloaded mp4>" image m2 three_frames Hids
              (λ l, reflexivity l) eq_refl eq_refl)
    as (Hr & Hg & _);
    [by vm_compute|by vm_compute|reflexivity|exact Hfresh|exact Hmk
    |reflexivity|].
  split; [exact Hr|exact Hg].
Defined.

(** X19. The reach of the handler: whatever the request and however it
    ends, a path is afterwards as it was unless it is the download, the
    uploaded file, [temp] or a directory leading to it, or lies on the way
    to or below the job's output directory. *)
Theorem post_footprint w req m k :
  plain_ids w →
  k ≠ download_path w → file_path req ≠ Some k →
  ¬ k `prefix_of` temp_path w →
  ¬ k `prefix_of` job_path w → ¬ job_path w `prefix_of` k →
  disk (postExtractKeyframes w req (start m)) !! k = m !! k.
Proof. intros. by apply post_outside. Qed.

Lemma post_footprint_witness :
  disk (postExtractKeyframes world_broken
          (Request (Str "5") None (Some staged_clip)) (start image_staged))
    !! (app ++ ["server.js"])
  = image_staged !! (app ++ ["server.js"]).
Proof.
  apply post_footprint.
  - split; reflexivity.
  - by vm_compute.
  - by vm_compute.
  - apply (bool_decide_unpack _). by vm_compute.
  - apply (bool_decide_unpack _). by vm_compute.
  - apply (bool_decide_unpack _). by vm_compute.
Defined.

End Download.

(** ** When the uploaded file is removed *)

Module Leftovers.
Import Text Path Disk Frames Server Props Example Places.
Import PathFacts DiskFacts FramesFacts FrameRoutes Pipeline Success FrameNumber.
Import Staging Replies Isolation.

Lemma cleanup_removes (p : path) d st :
  lstat (disk st) (plainp p) = IsFile d →
  disk (cleanup (plainp p) st) !! p = None.
Proof. intros H. rewrite (cleanup_file p d st H). apply lookup_delete_eq. Qed.

Lemma catch_keeps_staged w msg st name d :
  lstat (disk st) (plainp (dirname w ++ ["temp"; name])) = IsFile d →
  lstat (disk (catch_block msg (Some (plainp (job_path w))) st))
    (plainp (dirname w ++ ["temp"; name])) = IsFile d.
Proof.
  intros H. unfold catch_block. simpl.
  destruct (rm_rf _ _) as [e|m0] eqn:Hrm; simpl; [done|].
  apply (staged_kept (disk st) m0 (dirname w) name [uuid_job w]); [|done].
  intros k Hk. by apply (rm_rf_outside _ _ _ _ Hrm).
Qed.

(** Once line 134 has given an interval, the upload is removed exactly
    when the reply is a 200 or a 500. *)
Lemma upload_after_interval w i req m name d :
  plain_ids w →
  url_given req = None → file_path req = Some (dirname w ++ ["temp"; name]) →
  lstat m (plainp (dirname w ++ ["temp"; name])) = IsFile d →
  let st := settle (try_with w i req (start m)) in
  (disk st !! (dirname w ++ ["temp"; name]) = None
   ↔ ∃ body, replied st = Some (Json 200 body)
             ∨ replied st = Some (Json 500 body))
  ∧ (disk st !! (dirname w ++ ["temp"; name]) = None
     ∨ disk st !! (dirname w ++ ["temp"; name])
       = m !! (dirname w ++ ["temp"; name])).
Proof.
  intros Hids Hurl Hf Hd st. subst st.
  pose proof (lstat_IsFile_lookup _ _ _ Hd) as Hl.
  unfold try_with, settle.
  destruct (_ || _).
  { simpl. split; [|by right]. rewrite Hl. split; [done|].
    by intros [body [H|H]]. }
  unfold acquire. rewrite Hurl, Hf. simpl.
  unfold extract_into. rewrite (job_dir w Hids). fold (job_path w).
  destruct (mkdir_p _ _) as [e|m2] eqn:Hmk.
  { simpl. unfold replied. rewrite cleanup_sent.
    rewrite (cleanup_removes _ d) by (by apply catch_keeps_staged).
    split; [|by left]. split; [|done]. intros _. eexists. by right. }
  assert (∀ frames,
            lstat (disk (produced w frames m2 (start m)))
              (plainp (dirname w ++ ["temp"; name])) = IsFile d) as Hw.
  { intros frames. apply (staged_kept m2 _ (dirname w) name [uuid_job w]).
    - intros k Hk. unfold produced. by rewrite write_frames_outside.
    - by eapply mkdir_p_lstat. }
  assert (∀ frames, sent (produced w frames m2 (start m)) = None) as Hs.
  { intros frames. unfold produced. by rewrite write_frames_sent. }
  unfold extractKeyframes. simpl disk.
  change (segs (plainp (job_path w))) with (job_path w).
  destruct (ffmpeg w m2 _ _) as [frames|msg frames|frames];
    fold (produced w frames m2 (start m)).
  - rewrite (produced_readdir w _ _ _ Hmk).
    destruct (collectFrames _ _) as [paths|]; simpl.
    + unfold replied. rewrite cleanup_sent.
      rewrite (cleanup_removes _ d) by (by simpl).
      split; [|by left]. split; [|done]. intros _. eexists. by left.
    + unfold replied. rewrite Hs, (lstat_IsFile_lookup _ _ _ (Hw _)), Hl.
      simpl. split; [|by right]. split; [done|]. by intros [body [H|H]].
  - simpl. unfold replied. rewrite cleanup_sent.
    rewrite (cleanup_removes _ d) by (by apply catch_keeps_staged).
    split; [|by left]. split; [|done]. intros _. eexists. by right.
  - simpl. unfold replied. rewrite Hs, (lstat_IsFile_lookup _ _ _ (Hw _)), Hl.
    simpl. split; [|by right]. split; [done|]. by intros [body [H|H]].
Qed.

(** X20. For an uploaded video and no URL, the file in [temp] is removed
    exactly when line 134 did not throw and the reply is a 200 or a 500.
    After a 400, after the 500 of an interval field that cannot be read,
    and when no reply is ever sent, the file is still there, unchanged. *)
Theorem upload_removed_exactly_when_settled w req m f :
  plain_ids w → upload_staged w m req →
  url_given req = None → file_path req = Some f →
  let st := postExtractKeyframes w req (start m) in
  (disk st !! f = None
   ↔ (∃ i, parse_interval (interval_field req) = inr i)
     ∧ ∃ body, replied st = Some (Json 200 body)
               ∨ replied st = Some (Json 500 body))
  ∧ (∀ msg, interval_field req = Unreadable msg →
            replied st = Some (extract_error msg) ∧ disk st = m)
  ∧ (disk st !! f = None ∨ disk st !! f = m !! f).
Proof.
  intros Hids Hup Hurl Hf st. subst st.
  destruct (Hup f Hf) as (name & d & -> & Hd).
  unfold postExtractKeyframes, try_block.
  destruct (parse_interval (interval_field req)) as [e|i] eqn:Hparse.
  - simpl. split_and!.
    + rewrite (lstat_IsFile_lookup _ _ _ Hd). split; [done|].
      by intros [[i ?] _].
    + intros msg E. rewrite E in Hparse. by simplify_eq/=.
    + by right.
  - destruct (upload_after_interval w i req m name d Hids Hurl Hf Hd)
      as [Hiff Hor].
    split_and!; [|intros msg E; rewrite E in Hparse; by simplify_eq/=|done].
    rewrite Hiff. split; [intros ?; split; [by eexists|done]|by intros [_ ?]].
Qed.

Lemma upload_removed_exactly_when_settled_witness :
  let req := Request (Unreadable "Cannot convert object to primitive value")
               None (Some staged_clip) in
  let st := postExtractKeyframes world_ok req (start image_staged) in
  replied st
  = Some (extract_error "Cannot convert object to primitive value")
  ∧ disk st = image_staged.
Proof.
  intros req st.
  destruct (upload_removed_exactly_when_settled world_ok req image_staged
              staged_clip) as (_ & H & _).
  - split; reflexivity.
  - intros f [= <-]. exists "0b0e7f3c-upload.mp4", "<mp4 bytes>".
    split; [reflexivity|by vm_compute].
  - reflexivity.
  - reflexivity.
  - by apply H.
Defined.

End Leftovers.
